(** * Audit_scripts: the auxiliary-item parser and the bank-payment allocation

    A shallow embedding of four classes of the repository:

    - [AuxiliaryParser] of [src/data_conversion/parser.py], the bracket
      scanner that reads tags of the form 【type：value】 out of a text field,
      with its checks and extractions;
    - [PaymentTracker] of [银行付款去向追踪/src/bank_payment.py], which groups
      the rows of a ledger by voucher, splits the rows of a voucher into debit
      and credit legs, classifies the voucher by its leg counts and allocates
      amounts between the legs;
    - [AIClassifier] of [银行付款去向追踪/src/ai_classifier.py], as far as it
      does not depend on the answer of the service;
    - [PaymentStatistics] of [银行付款去向追踪/src/payment_statistics.py], the
      basic statistics of the payment records.

    Conventions of the embedding.

    - A Python [str] is a sequence of Unicode code points: [text] is a list of
      code points, so [len], indexing and slicing count what Python counts.
      Literals are written as UTF-8 strings and decoded by [Text.str].
    - Python built-ins and services that live outside the repository are
      parameters: [str.lower], [float], and the two calls of the LLM
      classifier (which may raise); in the classifier itself, the request
      sent to the service and the texts of the two prompts.
    - Amounts are Python floats.  They are embedded as IEEE 754 binary64
      values ([Float64.float], the [spec_float] of the standard library at
      precision 53), with the addition, subtraction, absolute value and
      comparisons of the standard, rounding to nearest even; infinities and
      NaN are values of the type.  A decimal literal such as [0.01] is the
      float nearest to it.
    - A raised exception is an [Err] result; [print] calls are dropped. *)

From Stdlib Require Import String Ascii.
From Stdlib Require Import List Bool Arith NArith ZArith Lia Sorted SpecFloat.
Import ListNotations.

Set Implicit Arguments.

(* ================================================================== *)
(** * Text: Python strings as lists of code points *)
(* ================================================================== *)

Module Text.

Definition codepoint := N.
Definition text := list codepoint.

(** Decoding of a UTF-8 byte sequence, used only to write literals. *)
Fixpoint utf8_decode (bs : list N) : text :=
  match bs with
  | [] => []
  | b0 :: r0 =>
    if (b0 <? 0x80)%N then b0 :: utf8_decode r0
    else if (b0 <? 0xE0)%N then
      match r0 with
      | b1 :: r1 =>
        N.lor (N.shiftl (N.land b0 0x1F) 6) (N.land b1 0x3F) :: utf8_decode r1
      | _ => []
      end
    else if (b0 <? 0xF0)%N then
      match r0 with
      | b1 :: b2 :: r2 =>
        N.lor (N.shiftl (N.land b0 0x0F) 12)
              (N.lor (N.shiftl (N.land b1 0x3F) 6) (N.land b2 0x3F))
          :: utf8_decode r2
      | _ => []
      end
    else
      match r0 with
      | b1 :: b2 :: b3 :: r3 =>
        N.lor (N.shiftl (N.land b0 0x07) 18)
              (N.lor (N.shiftl (N.land b1 0x3F) 12)
                     (N.lor (N.shiftl (N.land b2 0x3F) 6) (N.land b3 0x3F)))
          :: utf8_decode r3
      | _ => []
      end
  end.

(** A string literal of the source, as the text Python reads. *)
Definition str (s : string) : text :=
  utf8_decode (map N_of_ascii (list_ascii_of_string s)).

Fixpoint eqb (a b : text) : bool :=
  match a, b with
  | [], [] => true
  | x :: a', y :: b' => (x =? y)%N && eqb a' b'
  | _, _ => false
  end.

(** [c.isspace()]: the code points [str.strip()] removes. *)
Definition is_space (c : codepoint) : bool :=
  ((0x09 <=? c) && (c <=? 0x0D) || (0x1C <=? c) && (c <=? 0x20)
   || (c =? 0x85) || (c =? 0xA0) || (c =? 0x1680)
   || (0x2000 <=? c) && (c <=? 0x200A)
   || (c =? 0x2028) || (c =? 0x2029) || (c =? 0x202F) || (c =? 0x205F)
   || (c =? 0x3000))%N.

Fixpoint lstrip (s : text) : text :=
  match s with
  | [] => []
  | c :: r => if is_space c then lstrip r else s
  end.

Definition rstrip (s : text) : text := rev (lstrip (rev s)).

(** [s.strip()] *)
Definition strip (s : text) : text := rstrip (lstrip s).

(** [s[a:b]] for indices [0 <= a] and [0 <= b]. *)
Definition slice (s : text) (a b : nat) : text := firstn (b - a) (skipn a s).

(** [s[:m]] for any integer [m]: a negative [m] counts from the end. *)
Definition slice_to (s : text) (m : Z) : text :=
  if (m <? 0)%Z then firstn (Z.to_nat (Z.of_nat (length s) + m)) s
  else firstn (Z.to_nat m) s.

(** [s[-k:]] for [0 < k]. *)
Definition slice_last (s : text) (k : nat) : text := skipn (length s - k) s.

(** [s[i]] for [0 <= i < len(s)]. *)
Definition char_at (s : text) (i : nat) : codepoint := nth i s 0%N.

(** [s[-1]] of a non-empty string. *)
Definition last_char (s : text) : option codepoint :=
  match s with
  | [] => None
  | _ => Some (last s 0%N)
  end.

Fixpoint starts_with (p s : text) : bool :=
  match p, s with
  | [], _ => true
  | x :: p', y :: s' => (x =? y)%N && starts_with p' s'
  | _ :: _, [] => false
  end.

(** [needle in hay] *)
Fixpoint contains (needle hay : text) : bool :=
  starts_with needle hay
  || match hay with
     | [] => false
     | _ :: r => contains needle r
     end.

(** [s.replace(c, d)] for one-character [c] and [d]. *)
Definition replace_char (c d : codepoint) (s : text) : text :=
  map (fun x => if (x =? c)%N then d else x) s.

(** [s.replace(c, '')] for a one-character [c]. *)
Definition remove_char (c : codepoint) (s : text) : text :=
  filter (fun x => negb (x =? c)%N) s.

(** Code points the two classes name in their literals. *)
Definition LEFT_BRACKET : codepoint := 0x3010%N.   (* 【 *)
Definition RIGHT_BRACKET : codepoint := 0x3011%N.  (* 】 *)
Definition WIDE_COLON : codepoint := 0xFF1A%N.     (* ： *)
Definition ASCII_COLON : codepoint := 0x3A%N.      (* : *)
Definition SPACE : codepoint := 0x20%N.
Definition UNDERSCORE : codepoint := 0x5F%N.
Definition COMMA : codepoint := 0x2C%N.
Definition DOUBLE_QUOTE : codepoint := 0x22%N.

End Text.

Import Text.

(* ================================================================== *)
(** * AuxiliaryParser (src/data_conversion/parser.py) *)
(* ================================================================== *)

Module AuxiliaryParser.

(** [self.type_mapping]: a dict literal, kept in insertion order because
    [_standardize_type] iterates over it. *)
Definition type_mapping : list (text * text) :=
  [ (str "客商", str "supplier_customer");
    (str "供应商", str "supplier");
    (str "客户", str "customer");
    (str "项目", str "project");
    (str "部门", str "department");
    (str "银行账户", str "bank_account");
    (str "人员档案", str "employee");
    (str "员工", str "employee");
    (str "人员", str "employee");
    (str "款项名称", str "payment_item");
    (str "绩效部门", str "performance_dept");
    (str "绩效部门hl", str "performance_dept_hl");
    (str "往来单位", str "business_partner");
    (str "单位", str "unit");
    (str "结算方式", str "settlement_method");
    (str "现金流量项目", str "cash_flow_item");
    (str "业务员", str "salesman");
    (str "存货", str "inventory");
    (str "自定义项", str "custom_item");
    (str "托外流水号", str "external_flow_number");
    (str "外部流水号", str "external_flow_number");
    (str "流水号", str "flow_number");
    (str "业务类别", str "business_category");
    (str "物业地址", str "property_address");
    (str "银行档案", str "bank_archive");
    (str "合同编号", str "contract_number");
    (str "发票号码", str "invoice_number");
    (str "收款单位", str "receiving_unit");
    (str "付款单位", str "paying_unit");
    (str "施工编号", str "construction_number");
    (str "项目编号", str "project_number");
    (str "档案编号", str "archive_number") ].

(** [d.get(k)] on a dict kept as an association list. *)
Fixpoint dict_get (d : list (text * text)) (k : text) : option text :=
  match d with
  | [] => None
  | (k', v) :: d' => if Text.eqb k' k then Some v else dict_get d' k
  end.

(** [d[k] = v]: overwrite in place, or append a new key. *)
Fixpoint dict_set (d : list (text * text)) (k v : text) : list (text * text) :=
  match d with
  | [] => [(k, v)]
  | (k', v') :: d' =>
    if Text.eqb k' k then (k', v) :: d' else (k', v') :: dict_set d' k v
  end.

(** [self.reverse_mapping], built by the loop of [__init__]. *)
Definition reverse_mapping : list (text * text) :=
  fold_left
    (fun rm kv =>
       let '(k, v) := kv in
       if Text.eqb v (str "external_flow_number") && Text.eqb k (str "托外流水号")
       then dict_set rm v k
       else match dict_get rm v with
            | None => dict_set rm v k
            | Some _ => rm
            end)
    type_mapping [].

(** The arguments of the warning f-string of [_validate_and_truncate_value]
    (the message itself is not rendered). *)
Record Warning : Type := {
  warn_item_type : text;
  warn_original_length : nat;
  warn_truncated_length : nat;
  warn_tail : text                (* truncated_value[-50:] *)
}.

(** One parsed item: the dict [item_data]; [value_warning] is present only
    when the value was truncated. *)
Record Item : Type := {
  raw_type : text;
  item_type : text;
  item_value : text;
  display_type : text;
  value_warning : option Warning
}.

(** [c in special_chars] *)
Definition is_special (c : codepoint) : bool :=
  ((c =? LEFT_BRACKET) || (c =? RIGHT_BRACKET)
   || (c =? ASCII_COLON) || (c =? WIDE_COLON))%N.

(** The backward walk of [_validate_and_truncate_value]:
    [while last_valid_index >= 0 and truncated_value[last_valid_index] in
    special_chars: last_valid_index -= 1].  The argument and the result are
    [last_valid_index + 1], so that index [-1] is [0]. *)
Fixpoint walk_back (truncated_value : text) (k : nat) : nat :=
  match k with
  | O => O
  | S j => if is_special (char_at truncated_value j)
           then walk_back truncated_value j
           else S j
  end.

(** A dict with string keys and values of any type, in insertion order. *)
Fixpoint lookup {V : Type} (d : list (text * V)) (k : text) : option V :=
  match d with
  | [] => None
  | (k', v) :: d' => if Text.eqb k' k then Some v else lookup d' k
  end.

(** [d[k] = v] *)
Fixpoint store {V : Type} (d : list (text * V)) (k : text) (v : V)
  : list (text * V) :=
  match d with
  | [] => [(k, v)]
  | (k', v') :: d' =>
    if Text.eqb k' k then (k', v) :: d' else (k', v') :: store d' k v
  end.

(** [a < b] on strings: code point by code point. *)
Fixpoint text_ltb (a b : text) : bool :=
  match a, b with
  | _, [] => false
  | [], _ :: _ => true
  | x :: a', y :: b' =>
    if (x <? y)%N then true else if (y <? x)%N then false else text_ltb a' b'
  end.

(** [sorted(l)] on strings, as a stable insertion sort. *)
Fixpoint insert_sorted (x : text) (l : list text) : list text :=
  match l with
  | [] => [x]
  | y :: l' => if text_ltb x y then x :: l else y :: insert_sorted x l'
  end.

Definition sorted (l : list text) : list text :=
  fold_left (fun acc x => insert_sorted x acc) l [].

(** [s.add(x)] on a set kept as a list without repetition. *)
Definition set_add (s : list text) (x : text) : list text :=
  if existsb (Text.eqb x) s then s else s ++ [x].

(** The messages [validate_auxiliary_format] may add to [errors]. *)
Inductive format_error : Type :=
| MissingRightBracket                       (* 缺少右括号】 *)
| MissingLeftBracket                        (* 缺少左括号【 *)
| BracketMismatch (opened closed : nat)     (* 括号不匹配 *)
| ParseShort (found opened : nat).          (* 格式解析失败 *)

Section Parser.

(** [self.max_value_length] *)
Variable max_value_length : Z.

(** [str.lower] *)
Variable lower : text -> text.

Definition _standardize_type (raw_type : text) : text :=
  match dict_get type_mapping raw_type with
  | Some v => v
  | None =>
    match find (fun kv => contains (fst kv) raw_type || contains raw_type (fst kv))
               type_mapping with
    | Some kv => snd kv
    | None => replace_char SPACE UNDERSCORE (lower raw_type)
    end
  end.

Definition _validate_and_truncate_value (value item_type : text)
  : text * bool * option Warning :=
  match value with
  | [] => (value, false, None)
  | _ :: _ =>
    if (Z.of_nat (length value) <=? max_value_length)%Z then (value, false, None)
    else
      let truncated_value := slice_to value max_value_length in
      let truncated_value :=
        match last_char truncated_value with
        | Some c =>
          if is_special c then
            (* last_valid_index = len(truncated_value) - 2 *)
            let k := walk_back truncated_value (length truncated_value - 1) in
            match k with
            | S _ => firstn k truncated_value   (* last_valid_index >= 0 *)
            | O => truncated_value              (* only special characters *)
            end
          else truncated_value
        | None => truncated_value
        end in
      (truncated_value, true,
       Some {| warn_item_type := item_type;
               warn_original_length := length value;
               warn_truncated_length := length truncated_value;
               warn_tail := slice_last truncated_value 50 |})
  end.

(** The colon search: [while i < n and colon_pos == -1], run on the text
    from index [i] on.  Returns [(colon_pos, i)]; [None] is [-1]. *)
Fixpoint scan_colon (rest : text) (i : nat) : option nat * nat :=
  match rest with
  | [] => (None, i)
  | c :: rest' =>
    if (c =? WIDE_COLON)%N then (Some i, S i) else scan_colon rest' (S i)
  end.

(** The bracket matching: [while i < n and bracket_count > 0], run on the
    text from index [i] on.  Returns [(i, bracket_count)]. *)
Fixpoint scan_close (rest : text) (i bracket_count : nat) : nat * nat :=
  match bracket_count with
  | O => (i, O)
  | S below =>
    match rest with
    | [] => (i, bracket_count)
    | c :: rest' =>
      if (c =? LEFT_BRACKET)%N then scan_close rest' (S i) (S bracket_count)
      else if (c =? RIGHT_BRACKET)%N then scan_close rest' (S i) below
      else scan_close rest' (S i) bracket_count
    end
  end.

(** What one pass through the body of the outer [while] does. *)
Inductive outcome : Type :=
| Continue (i : nat) (items : list Item)   (* back to the loop test *)
| Return (items : list Item).              (* loop left: test false or break *)

Definition make_item (item_type_raw item_value : text) : Item :=
  let standardized_type := _standardize_type item_type_raw in
  let '(validated_value, was_truncated, warning_msg) :=
    _validate_and_truncate_value item_value standardized_type in
  {| raw_type := item_type_raw;
     item_type := standardized_type;
     item_value := validated_value;
     display_type :=
       match dict_get reverse_mapping standardized_type with
       | Some d => d
       | None => item_type_raw
       end;
     value_warning := if was_truncated then warning_msg else None |}.

Definition loop_body (text : text) (i : nat) (items : list Item) : outcome :=
  let n := length text in
  if i <? n then
    if (char_at text i =? LEFT_BRACKET)%N then
      let start := i in
      let i := S i in
      let '(colon_pos, i) := scan_colon (skipn i text) i in
      match colon_pos with
      | None => Return items                               (* break *)
      | Some colon_pos =>
        let item_type := strip (slice text (S start) colon_pos) in
        let value_start := S colon_pos in
        let '(i, bracket_count) := scan_close (skipn i text) i 1 in
        match bracket_count with
        | O =>
          let item_value := strip (slice text value_start (i - 1)) in
          Continue i (items ++ [make_item item_type item_value])
        | S _ => Return items                              (* break *)
        end
      end
    else Continue (S i) items
  else Return items.

(** The outer [while] loop; [None] only when the fuel runs out. *)
Fixpoint run_loop (fuel : nat) (text : text) (i : nat) (items : list Item)
  : option (list Item) :=
  match fuel with
  | O => None
  | S fuel' =>
    match loop_body text i items with
    | Return items' => Some items'
    | Continue i' items' => run_loop fuel' text i' items'
    end
  end.

Definition _parse_auxiliary_manual (text : text) : option (list Item) :=
  run_loop (S (length text)) text 0 [].

(** [parse_auxiliary_info]: the argument is [None] for Python's [None] or a
    NaN cell, for which [pd.isna] holds. *)
Definition parse_auxiliary_info (text : option text) : option (list Item) :=
  match text with
  | None => Some []
  | Some t =>
    match t with
    | [] => Some []                       (* not text *)
    | _ :: _ =>
      match strip t with
      | [] => Some []                     (* str(text).strip() == '' *)
      | _ :: _ => _parse_auxiliary_manual (strip t)
      end
    end
  end.

(** [validate_item_value_length]: the flag, and the two numbers of the
    message when the value is too long. *)
Definition validate_item_value_length (value : text) : bool * option (nat * Z) :=
  match value with
  | [] => (true, None)
  | _ :: _ =>
    if (max_value_length <? Z.of_nat (length value))%Z
    then (false, Some (length value, max_value_length))
    else (true, None)
  end.

(** [extract_specific_items] *)
Definition extract_specific_items (text : option text)
           (target_types : list Text.text)
  : option (list (Text.text * list Text.text)) :=
  match parse_auxiliary_info text with
  | None => None
  | Some items =>
    let result := fold_left (fun d target_type => store d target_type [])
                            target_types [] in
    Some (fold_left
            (fun result item =>
               if existsb (Text.eqb (item_type item)) target_types
               then match lookup result (item_type item) with
                    | Some values =>
                      store result (item_type item) (values ++ [item_value item])
                    | None => result
                    end
               else result)
            items result)
  end.

(** [get_all_item_types]: [texts] is the Series, [None] an entry that
    [dropna] removes. *)
Fixpoint collect_item_types (texts : list (option text)) (all_types : list text)
  : option (list text) :=
  match texts with
  | [] => Some all_types
  | None :: rest => collect_item_types rest all_types
  | Some t :: rest =>
    match parse_auxiliary_info (Some t) with
    | None => None
    | Some items =>
      collect_item_types rest
        (fold_left (fun types item => set_add types (item_type item))
                   items all_types)
    end
  end.

Definition get_all_item_types (texts : list (option text)) : option (list text) :=
  match collect_item_types texts [] with
  | None => None
  | Some all_types => Some (sorted all_types)
  end.

(** [validate_auxiliary_format] *)
Definition validate_auxiliary_format (text : option text)
  : option (bool * list format_error) :=
  match text with
  | None => Some (true, [])
  | Some [] => Some (true, [])
  | Some ((_ :: _) as t) =>
    let text_str := strip t in
    let errors := [] in
    let errors :=
      if contains [LEFT_BRACKET] text_str && negb (contains [RIGHT_BRACKET] text_str)
      then errors ++ [MissingRightBracket] else errors in
    let errors :=
      if contains [RIGHT_BRACKET] text_str && negb (contains [LEFT_BRACKET] text_str)
      then errors ++ [MissingLeftBracket] else errors in
    let open_brackets := count_occ N.eq_dec text_str LEFT_BRACKET in
    let close_brackets := count_occ N.eq_dec text_str RIGHT_BRACKET in
    let errors :=
      if negb (open_brackets =? close_brackets)
      then errors ++ [BracketMismatch open_brackets close_brackets] else errors in
    match _parse_auxiliary_manual text_str with
    | None => None
    | Some items =>
      let errors :=
        if length items <? open_brackets
        then errors ++ [ParseShort (length items) open_brackets] else errors in
      Some (match errors with [] => true | _ :: _ => false end, errors)
    end
  end.

End Parser.

End AuxiliaryParser.


(* ================================================================== *)
(** * Python floats *)
(* ================================================================== *)

(** A Python [float] is an IEEE 754 binary64 number: [spec_float] of the
    Standard Library with a precision of 53 bits and a maximal exponent of
    1024, its operations rounding to nearest, ties to even.  Infinities and
    NaN are values of the type. *)
Module Float64.

Definition float : Type := spec_float.

Definition prec : Z := 53.
Definition emax : Z := 1024.

(** [0.0], and the int [0] where it meets a float in a comparison or a sum. *)
Definition zero : float := S754_zero false.

Definition add (a b : float) : float := SFadd prec emax a b.   (* a + b *)
Definition sub (a b : float) : float := SFsub prec emax a b.   (* a - b *)
Definition abs (a : float) : float := SFabs a.                 (* abs(a) *)
Definition ltb (a b : float) : bool := SFltb a b.              (* a < b *)
Definition leb (a b : float) : bool := SFleb a b.              (* a <= b *)

(** The float nearest to [num / den], for [0 < den]: the value of a decimal
    literal.  The quotient is taken with more than 64 bits and one more bit
    that tells whether the division left a remainder, and then rounded. *)
Definition of_ratio (num den : Z) : float :=
  if (num =? 0)%Z then zero
  else
    let s := Z.max 0 (64 + Z.log2 den - Z.log2 (Z.abs num))%Z in
    let n := (Z.abs num * 2 ^ s)%Z in
    let q := (n / den)%Z in
    let m := (2 * q + (if (n mod den =? 0)%Z then 0 else 1))%Z in
    binary_normalize prec emax (if (num <? 0)%Z then (- m)%Z else m)
                     (- s - 1)%Z false.

Definition of_Z (z : Z) : float := of_ratio z 1.

End Float64.

(* ================================================================== *)
(** * PaymentTracker (银行付款去向追踪/src/bank_payment.py) *)
(* ================================================================== *)

Module PaymentTracker.

Import Float64.

(** [x > 0] *)
Definition positive (x : float) : Prop := ltb zero x = true.

(** [min(a, b)]: Python returns [a] unless [b < a]. *)
Definition py_min (a b : float) : float := if ltb b a then b else a.

(** [sum(...)]: starts from 0 and adds from the left. *)
Definition py_sum (l : list float) : float := fold_left add l zero.

(** The literal [0.01] of the balance tests: the float nearest to 1/100. *)
Definition tolerance : float := of_ratio 1 100.

(** What a call may raise. *)
Inductive exn : Type :=
| UnknownVoucherType                               (* ValueError: 未知的凭证类型 *)
| Unbalanced (total_credit total_debit : float)    (* ValueError: 凭证不平衡 *)
| ClassifierError                                  (* raised by the LLM call *)
| IndexError.                                      (* records[0] of an empty list *)

Inductive result (A : Type) : Type :=
| Ok (a : A)
| Err (e : exn).
Arguments Err {A} e.

Definition bind {A B : Type} (m : result A) (k : A -> result B) : result B :=
  match m with
  | Ok a => k a
  | Err e => Err e
  end.

Notation "x <- m ;; k" := (bind m (fun x => k))
  (at level 61, m at next level, right associativity).
Notation "' p <- m ;; k" := (bind m (fun x => let 'p := x in k))
  (at level 61, p pattern, m at next level, right associativity).

(** One row of the CSV file, a dict of [csv.DictReader]; the two amount
    columns are [None] when the row is short. *)
Record Row : Type := {
  month : text;             (* 月 *)
  day : text;               (* 日 *)
  voucher_number : text;    (* 凭证号 *)
  entry_number : text;      (* 分录号 *)
  account_name : text;      (* 科目名称 *)
  summary : text;           (* 摘要 *)
  debit : option text;      (* 借方 *)
  credit : option text;     (* 贷方 *)
  auxiliary : text          (* 辅助项 *)
}.

(** A row after [_process_voucher_group] stored its cleaned amount in it:
    key 借方金额 of a debit record, key 贷方金额 of a credit record. *)
Record Leg : Type := {
  row : Row;
  amount : float
}.

(** The dict [_create_debit_entry] returns. *)
Record DebitEntry : Type := {
  entry_account_name : text;     (* 科目名称 *)
  entry_amount : float;          (* 金额 *)
  entry_summary : text;          (* 摘要 *)
  entry_department : text;       (* 部门 *)
  entry_customer : text;         (* 客商 *)
  entry_person : text;           (* 人员 *)
  entry_purpose : text;          (* 款项用途分类 *)
  entry_cash_flow : text         (* 现金流量表项目分类 *)
}.

(** The value of key 贷方 of a payment record. *)
Record CreditInfo : Type := {
  credit_account_name : text;    (* 科目名称 *)
  credit_amount : float;         (* 金额 *)
  credit_summary : text;         (* 摘要 *)
  credit_bank_account : text     (* 银行账户 *)
}.

(** The value of key 校验信息: [balanced] is 平衡 ([true]) or 不平衡. *)
Record CheckInfo : Type := {
  debit_total : float;           (* 借方合计 *)
  credit_total : float;          (* 贷方合计 *)
  balanced : bool                (* 平衡状态 *)
}.

(** The strings [_determine_voucher_type] returns. *)
Inductive VoucherType : Type :=
| OneCreditOneDebit      (* 一贷一借 *)
| OneCreditMultiDebit    (* 一贷多借 *)
| MultiCreditOneDebit    (* 多贷一借 *)
| MultiCreditMultiDebit  (* 多贷多借 *)
| UnknownType.           (* 未知 *)

Record PaymentRecord : Type := {
  payment_id : text;                   (* 付款ID *)
  original_voucher : text;             (* 原始凭证 *)
  credit_side : CreditInfo;            (* 贷方 *)
  debit_side : list DebitEntry;        (* 借方 *)
  voucher_type : VoucherType;          (* 凭证类型 *)
  entry_index : option nat;            (* 分录序号 *)
  entry_count : option nat;            (* 总分录数 *)
  check_info : CheckInfo               (* 校验信息 *)
}.

(** [re.search('【' + label + '：([^】]+)】', s)] at the start of [s]. *)
Fixpoint span_value (s : text) : text * text :=
  match s with
  | [] => ([], [])
  | c :: r =>
    if (c =? RIGHT_BRACKET)%N then ([], s)
    else let '(v, rest) := span_value r in (c :: v, rest)
  end.

Definition match_tag_here (label s : text) : option text :=
  let opening := LEFT_BRACKET :: label ++ [WIDE_COLON] in
  if starts_with opening s then
    match span_value (skipn (length opening) s) with
    | ((_ :: _) as v, _ :: _) => Some v
    | _ => None
    end
  else None.

(** [re.search(...)]: the leftmost match; the result is [group(1)]. *)
Fixpoint search_tag (label s : text) : option text :=
  match match_tag_here label s with
  | Some v => Some v
  | None =>
    match s with
    | [] => None
    | _ :: r => search_tag label r
    end
  end.

Definition _extract_bank_account (auxiliary_item : text) : text :=
  match search_tag (str "银行账户") auxiliary_item with
  | Some v => v
  | None => []
  end.

Definition _extract_department (auxiliary_item : text) : text :=
  match search_tag (str "部门") auxiliary_item with
  | Some v => v
  | None =>
    match search_tag (str "绩效部门") auxiliary_item with
    | Some v => v
    | None => []
    end
  end.

Definition _extract_customer (auxiliary_item : text) : text :=
  match search_tag (str "客商") auxiliary_item with
  | Some v => v
  | None => []
  end.

Definition _extract_person (auxiliary_item : text) : text :=
  match search_tag (str "人员档案") auxiliary_item with
  | Some v => v
  | None => []
  end.

(** The class [AIClassifier]: each call goes to an LLM service and either
    answers with a label or raises ([None]). *)
Record AIClassifier : Type := {
  classify_payment_purpose : text -> text -> text -> option text;
  classify_cash_flow_item : text -> text -> text -> option text
}.

Definition _determine_voucher_type (debit_records credit_records : list Leg)
  : VoucherType :=
  let debit_count := length debit_records in
  let credit_count := length credit_records in
  if (debit_count =? 1)%nat && (credit_count =? 1)%nat then OneCreditOneDebit
  else if (debit_count =? 1)%nat && (1 <? credit_count)%nat then MultiCreditOneDebit
  else if (1 <? debit_count)%nat && (credit_count =? 1)%nat then OneCreditMultiDebit
  else if (1 <? debit_count)%nat && (1 <? credit_count)%nat then MultiCreditMultiDebit
  else UnknownType.

(** The two f-strings of a payment record. *)
Definition voucher_label (r : Row) : text :=
  month r ++ str "月" ++ day r ++ str "日-" ++ voucher_number r.

Definition payment_label (r : Row) : text :=
  voucher_label r ++ str "-分录" ++ entry_number r.

(** [abs(a - b) < 0.01] *)
Definition balance_state (a b : float) : bool := ltb (abs (sub a b)) tolerance.

Definition entry_amounts (entries : list DebitEntry) : list float :=
  map entry_amount entries.

Definition credit_info (credit_record : Leg) (amount : float) : CreditInfo :=
  {| credit_account_name := account_name (row credit_record);
     credit_amount := amount;
     credit_summary := summary (row credit_record);
     credit_bank_account := _extract_bank_account (auxiliary (row credit_record)) |}.

Section Tracker.

(** [float(s)]; [None] when it raises ValueError. *)
Variable float : text -> option Float64.float.

(** [self.ai_classifier] *)
Variable ai_classifier : AIClassifier.

Definition _clean_amount (amount_str : option text) : Float64.float :=
  match amount_str with
  | None => zero
  | Some s =>
    match s, strip s with
    | [], _ => zero
    | _, [] => zero
    | _, _ =>
      let cleaned := strip (remove_char DOUBLE_QUOTE (remove_char COMMA s)) in
      match float cleaned with
      | Some v => v
      | None => zero
      end
    end
  end.

Definition _create_debit_entry (debit_record : Leg) (amount : Float64.float)
  : result DebitEntry :=
  let r := row debit_record in
  match classify_payment_purpose ai_classifier (summary r) (account_name r) (auxiliary r) with
  | None => Err ClassifierError
  | Some purpose =>
    match classify_cash_flow_item ai_classifier (summary r) (account_name r) (auxiliary r) with
    | None => Err ClassifierError
    | Some cash_flow =>
      Ok {| entry_account_name := account_name r;
            entry_amount := amount;
            entry_summary := summary r;
            entry_department := _extract_department (auxiliary r);
            entry_customer := _extract_customer (auxiliary r);
            entry_person := _extract_person (auxiliary r);
            entry_purpose := purpose;
            entry_cash_flow := cash_flow |}
    end
  end.

Definition _process_one_credit_one_debit (debit_records credit_records : list Leg)
  : result (list PaymentRecord) :=
  match credit_records, debit_records with
  | credit_record :: _, debit_record :: _ =>
    debit_entry <- _create_debit_entry debit_record (amount debit_record) ;;
    Ok [ {| payment_id := payment_label (row credit_record);
            original_voucher := voucher_label (row credit_record);
            credit_side := credit_info credit_record (amount credit_record);
            debit_side := [debit_entry];
            voucher_type := OneCreditOneDebit;
            entry_index := None;
            entry_count := None;
            check_info :=
              {| debit_total := entry_amount debit_entry;
                 credit_total := amount credit_record;
                 balanced := balance_state (entry_amount debit_entry)
                                           (amount credit_record) |} |} ]
  | _, _ => Err IndexError
  end.

(** The [for] loop of [_process_one_credit_multi_debit] over the debit
    records still to visit; the last one is the one with nothing after it. *)
Fixpoint allocate_one_credit (debit_records : list Leg)
         (remaining_credit : Float64.float)
         (allocated_debits : list DebitEntry) : result (list DebitEntry) :=
  match debit_records with
  | [] => Ok allocated_debits
  | debit_record :: rest =>
    let debit_amount := amount debit_record in
    let allocated_amount :=
      match rest with
      | [] => remaining_credit
      | _ :: _ => py_min debit_amount remaining_credit
      end in
    if ltb zero allocated_amount then
      debit_entry <- _create_debit_entry debit_record allocated_amount ;;
      allocate_one_credit rest (sub remaining_credit allocated_amount)
                          (allocated_debits ++ [debit_entry])
    else allocate_one_credit rest remaining_credit allocated_debits
  end.

Definition _process_one_credit_multi_debit (debit_records credit_records : list Leg)
  : result (list PaymentRecord) :=
  match credit_records with
  | [] => Err IndexError
  | credit_record :: _ =>
    let credit_amount := amount credit_record in
    allocated_debits <- allocate_one_credit debit_records credit_amount [] ;;
    Ok [ {| payment_id := payment_label (row credit_record);
            original_voucher := voucher_label (row credit_record);
            credit_side := credit_info credit_record credit_amount;
            debit_side := allocated_debits;
            voucher_type := OneCreditMultiDebit;
            entry_index := None;
            entry_count := None;
            check_info :=
              {| debit_total := py_sum (entry_amounts allocated_debits);
                 credit_total := credit_amount;
                 balanced := balance_state (py_sum (entry_amounts allocated_debits))
                                           credit_amount |} |} ]
  end.

(** The [for] loop of [_process_multi_credit_one_debit] over the credit
    records still to visit, [i] being the index of the first of them and
    [total] the value of [len(credit_records)]. *)
Fixpoint allocate_one_debit (debit_record : Leg) (total : nat)
         (credit_records : list Leg) (i : nat)
         (remaining_debit : Float64.float)
         (payment_records : list PaymentRecord) : result (list PaymentRecord) :=
  match credit_records with
  | [] => Ok payment_records
  | credit_record :: rest =>
    let credit_amount := amount credit_record in
    let allocated_amount :=
      match rest with
      | [] => remaining_debit
      | _ :: _ => py_min credit_amount remaining_debit
      end in
    if ltb zero allocated_amount then
      debit_entry <- _create_debit_entry debit_record allocated_amount ;;
      let payment_record :=
        {| payment_id := payment_label (row credit_record);
           original_voucher := voucher_label (row credit_record);
           credit_side := credit_info credit_record allocated_amount;
           debit_side := [debit_entry];
           voucher_type := MultiCreditOneDebit;
           entry_index := Some (i + 1)%nat;
           entry_count := Some total;
           check_info :=
             {| debit_total := entry_amount debit_entry;
                credit_total := allocated_amount;
                balanced := balance_state (entry_amount debit_entry)
                                          allocated_amount |} |} in
      allocate_one_debit debit_record total rest (S i)
                         (sub remaining_debit allocated_amount)
                         (payment_records ++ [payment_record])
    else allocate_one_debit debit_record total rest (S i) remaining_debit
                            payment_records
  end.

Definition _process_multi_credit_one_debit (debit_records credit_records : list Leg)
  : result (list PaymentRecord) :=
  match debit_records with
  | [] => Err IndexError
  | debit_record :: _ =>
    allocate_one_debit debit_record (length credit_records) credit_records 0
                       (amount debit_record) []
  end.

(** The inner [for] loop of [_process_multi_credit_multi_debit] over what is
    left of [remaining_debits] for the current credit record.  It stops at
    the [break] with the debits it has not reached yet left out of
    [temp_debits]. *)
Fixpoint consume_debits (remaining_debits : list Leg)
         (remaining_credit : Float64.float)
         (allocated_debits : list DebitEntry) (temp_debits : list Leg)
  : result (list DebitEntry * list Leg) :=
  match remaining_debits with
  | [] => Ok (allocated_debits, temp_debits)
  | debit_record :: rest =>
    if leb remaining_credit zero then Ok (allocated_debits, temp_debits)
    else
      let debit_amount := amount debit_record in
      let allocated_amount :=
        match rest with
        | [] => remaining_credit
        | _ :: _ => py_min debit_amount remaining_credit
        end in
      if ltb zero allocated_amount then
        debit_entry <- _create_debit_entry debit_record allocated_amount ;;
        let updated_debit :=
          {| row := row debit_record;
             amount := sub debit_amount allocated_amount |} in
        consume_debits rest (sub remaining_credit allocated_amount)
                       (allocated_debits ++ [debit_entry])
                       (if ltb tolerance (amount updated_debit)
                        then temp_debits ++ [updated_debit]
                        else temp_debits)
      else consume_debits rest (sub remaining_credit allocated_amount)
                          allocated_debits temp_debits
  end.

(** The outer [for] loop of [_process_multi_credit_multi_debit]. *)
Fixpoint allocate_credits (total : nat) (credit_records : list Leg)
         (remaining_debits : list Leg) (payment_records : list PaymentRecord)
  : result (list PaymentRecord) :=
  match credit_records with
  | [] => Ok payment_records
  | credit_record :: rest =>
    let credit_amount := amount credit_record in
    '(allocated_debits, temp_debits) <-
       consume_debits remaining_debits credit_amount [] [] ;;
    let payment_record :=
      {| payment_id := payment_label (row credit_record);
         original_voucher := voucher_label (row credit_record);
         credit_side := credit_info credit_record credit_amount;
         debit_side := allocated_debits;
         voucher_type := MultiCreditMultiDebit;
         entry_index := Some (length payment_records + 1)%nat;
         entry_count := Some total;
         check_info :=
           {| debit_total := py_sum (entry_amounts allocated_debits);
              credit_total := credit_amount;
              balanced := balance_state (py_sum (entry_amounts allocated_debits))
                                        credit_amount |} |} in
    allocate_credits total rest temp_debits (payment_records ++ [payment_record])
  end.

Definition _process_multi_credit_multi_debit (debit_records credit_records : list Leg)
  : result (list PaymentRecord) :=
  let total_credit := py_sum (map amount credit_records) in
  let total_debit := py_sum (map amount debit_records) in
  if ltb tolerance (abs (sub total_credit total_debit))
  then Err (Unbalanced total_credit total_debit)
  else allocate_credits (length credit_records) credit_records debit_records [].

(** The first loop of [_process_voucher_group]: one row into the two lists. *)
Definition separate_record (lists : list Leg * list Leg) (record : Row)
  : list Leg * list Leg :=
  let '(debit_records, credit_records) := lists in
  let debit_amount := _clean_amount (debit record) in
  let credit_amount := _clean_amount (credit record) in
  if ltb zero debit_amount
  then (debit_records ++ [ {| row := record; amount := debit_amount |} ], credit_records)
  else if ltb zero credit_amount
  then (debit_records, credit_records ++ [ {| row := record; amount := credit_amount |} ])
  else (debit_records, credit_records).

Definition separate_records (voucher_records : list Row) : list Leg * list Leg :=
  fold_left separate_record voucher_records ([], []).

(** The dispatch at the end of [_process_voucher_group]. *)
Definition process_records (debit_records credit_records : list Leg)
  : result (list PaymentRecord) :=
  match _determine_voucher_type debit_records credit_records with
  | OneCreditOneDebit => _process_one_credit_one_debit debit_records credit_records
  | OneCreditMultiDebit => _process_one_credit_multi_debit debit_records credit_records
  | MultiCreditOneDebit => _process_multi_credit_one_debit debit_records credit_records
  | MultiCreditMultiDebit => _process_multi_credit_multi_debit debit_records credit_records
  | UnknownType => Err UnknownVoucherType
  end.

Definition _process_voucher_group (voucher_records : list Row)
  : result (list PaymentRecord) :=
  let '(debit_records, credit_records) := separate_records voucher_records in
  process_records debit_records credit_records.

(** The key of [process_data]: (月, 日, 凭证号). *)
Definition voucher_key (record : Row) : text * text * text :=
  (month record, day record, voucher_number record).

Definition key_eqb (a b : text * text * text) : bool :=
  let '(m1, d1, v1) := a in
  let '(m2, d2, v2) := b in
  Text.eqb m1 m2 && Text.eqb d1 d2 && Text.eqb v1 v2.

(** [if key not in voucher_groups: voucher_groups[key] = []] followed by
    [voucher_groups[key].append(record)], on a dict in insertion order. *)
Fixpoint group_add (voucher_groups : list (text * text * text * list Row))
         (key : text * text * text) (record : Row)
  : list (text * text * text * list Row) :=
  match voucher_groups with
  | [] => [(key, [record])]
  | (key', records) :: rest =>
    if key_eqb key' key then (key', records ++ [record]) :: rest
    else (key', records) :: group_add rest key record
  end.

Definition group_records (raw_data : list Row)
  : list (text * text * text * list Row) :=
  fold_left (fun groups record => group_add groups (voucher_key record) record)
            raw_data [].

(** The second loop of [process_data], with its [try] and [except]; the
    state is [(all_payment_records, error_count)]. *)
Definition process_group (state : list PaymentRecord * nat)
           (group : text * text * text * list Row) : list PaymentRecord * nat :=
  let '(all_payment_records, error_count) := state in
  match _process_voucher_group (snd group) with
  | Ok payment_records => (all_payment_records ++ payment_records, error_count)
  | Err _ => (all_payment_records, S error_count)
  end.

Definition process_groups (raw_data : list Row) : list PaymentRecord * nat :=
  fold_left process_group (group_records raw_data) ([], 0%nat).

(** [process_data]: from [self.raw_data] and [self.bank_payments] to the
    value returned and the new [self.bank_payments]. *)
Definition process_data (raw_data : list Row) (bank_payments : list PaymentRecord)
  : bool * list PaymentRecord :=
  match raw_data with
  | [] => (false, bank_payments)
  | _ :: _ =>
    let all_payment_records := fst (process_groups raw_data) in
    ((0 <? length all_payment_records)%nat, all_payment_records)
  end.

End Tracker.

End PaymentTracker.

(* ================================================================== *)
(** * The classifier *)
(* ================================================================== *)

(** The class [AIClassifier] of [银行付款去向追踪/src/ai_classifier.py]. *)
Module Classifier.

Import Text.

Section LLM.

(** [self.api_key] *)
Variable api_key : option text.

(** The request [_call_llm] sends for a prompt: the content of the answer,
    stripped, or [None] when the request or the reading of the answer
    raises. *)
Variable post : text -> option text.

(** The f-strings of the two prompts, made of the summary, the account name
    and the auxiliary item. *)
Variable purpose_prompt : text -> text -> text -> text.
Variable cash_flow_prompt : text -> text -> text -> text.

(** [None] when the call raises: ValueError without a key, RuntimeError when
    the request fails. *)
Definition _call_llm (prompt : text) : option text :=
  match api_key with
  | None => None                      (* not self.api_key *)
  | Some [] => None
  | Some (_ :: _) => post prompt
  end.

Definition classify_payment_purpose (summary account_name auxiliary_item : text)
  : option text :=
  match _call_llm (purpose_prompt summary account_name auxiliary_item) with
  | None => None
  | Some [] => Some (str "其他")
  | Some ((_ :: _) as result) => Some result
  end.

Definition classify_cash_flow_item (summary account_name auxiliary_item : text)
  : option text :=
  match _call_llm (cash_flow_prompt summary account_name auxiliary_item) with
  | None => None
  | Some [] => Some (str "其他活动")
  | Some ((_ :: _) as result) => Some result
  end.

(** The object [PaymentTracker.__init__] stores in [self.ai_classifier]. *)
Definition ai_classifier : PaymentTracker.AIClassifier :=
  {| PaymentTracker.classify_payment_purpose := classify_payment_purpose;
     PaymentTracker.classify_cash_flow_item := classify_cash_flow_item |}.

End LLM.

End Classifier.

(* ================================================================== *)
(** * The statistics of the payment records *)
(* ================================================================== *)

(** The class [PaymentStatistics] of
    [银行付款去向追踪/src/payment_statistics.py], which reads the payment
    records back from the JSON file [save_to_json] wrote. *)
Module Statistics.

Import Text Float64 PaymentTracker.

(** One of the dicts 按…统计: under each key the dict
    [{"记录数": n, "金额": a}], in insertion order. *)
Definition Breakdown : Type := list (text * (nat * float)).

(** [if key not in d: d[key] = {"记录数": 0, "金额": 0.0}], then
    [d[key]["记录数"] += 1] and [d[key]["金额"] += amount]. *)
Fixpoint add_to (d : Breakdown) (key : text) (amount : float) : Breakdown :=
  match d with
  | [] => [(key, (0 + 1, add zero amount))]
  | (k, (n, a)) :: d' =>
    if Text.eqb k key then (k, (n + 1, add a amount)) :: d'
    else (k, (n, a)) :: add_to d' key amount
  end.

(** 月 *)
Definition MONTH_SIGN : codepoint := 0x6708%N.

(** [s.split(c)[0]] for a one-character [c]. *)
Fixpoint before_char (c : codepoint) (s : text) : text :=
  match s with
  | [] => []
  | x :: r => if (x =? c)%N then [] else x :: before_char c r
  end.

(** [payment['贷方']['银行账户'] or payment['贷方']['科目名称']] *)
Definition account_of (payment : PaymentRecord) : text :=
  match credit_bank_account (credit_side payment) with
  | [] => credit_account_name (credit_side payment)
  | (_ :: _) as account => account
  end.

(** [payment['付款ID'].split('月')[0] + '月'] *)
Definition month_of (payment : PaymentRecord) : text :=
  before_char MONTH_SIGN (payment_id payment) ++ [MONTH_SIGN].

(** The string under 凭证类型. *)
Definition type_name (t : VoucherType) : text :=
  match t with
  | OneCreditOneDebit => str "一贷一借"
  | OneCreditMultiDebit => str "一贷多借"
  | MultiCreditOneDebit => str "多贷一借"
  | MultiCreditMultiDebit => str "多贷多借"
  | UnknownType => str "未知"
  end.

Definition type_of (payment : PaymentRecord) : text :=
  type_name (voucher_type payment).

(** The loops [for payment in self.payment_data: for debit in
    payment['借方']: ...] over the debit fragments. *)
Definition per_debit (key : DebitEntry -> text) (payment_data : list PaymentRecord)
  : Breakdown :=
  fold_left
    (fun d payment =>
       fold_left (fun d debit => add_to d (key debit) (entry_amount debit))
                 (debit_side payment) d)
    payment_data [].

(** The loops [for payment in self.payment_data: ...] over the records. *)
Definition per_payment (key : PaymentRecord -> text)
           (payment_data : list PaymentRecord) : Breakdown :=
  fold_left
    (fun d payment => add_to d (key payment) (credit_amount (credit_side payment)))
    payment_data [].

Record Stats : Type := {
  total_records : nat;            (* 总付款记录数 *)
  total_amount : float;           (* 总付款金额 *)
  by_purpose : Breakdown;         (* 按用途分类统计 *)
  by_cash_flow : Breakdown;       (* 按现金流量分类统计 *)
  by_account : Breakdown;         (* 按付款账户统计 *)
  by_month : Breakdown;           (* 按月份统计 *)
  by_voucher_type : Breakdown     (* 按凭证类型统计 *)
}.

(** [generate_basic_statistics]: [self.payment_data] is [None] before the
    file is loaded; the result [None] is the empty dict. *)
Definition generate_basic_statistics (payment_data : option (list PaymentRecord))
  : option Stats :=
  match payment_data with
  | None => None
  | Some [] => None
  | Some ((_ :: _) as payment_data) =>
    Some {| total_records := length payment_data;
            total_amount :=
              py_sum (map (fun payment => credit_amount (credit_side payment))
                          payment_data);
            by_purpose := per_debit entry_purpose payment_data;
            by_cash_flow := per_debit entry_cash_flow payment_data;
            by_account := per_payment account_of payment_data;
            by_month := per_payment month_of payment_data;
            by_voucher_type := per_payment type_of payment_data |}
  end.

End Statistics.

(* ================================================================== *)
(** * Sample environment and sample vouchers *)
(* ================================================================== *)

Module Samples.

Import Float64 PaymentTracker.

(** A stand-in for [float] on plain decimal literals: an optional sign,
    digits, and an optional fraction, read as the nearest float ([float]
    accepts more: exponents, [inf], [nan], underscores, blanks around). *)
Fixpoint read_digits (s : text) (acc : Z) (count : nat) : Z * nat * text :=
  match s with
  | [] => (acc, count, [])
  | c :: r =>
    if ((0x30 <=? c) && (c <=? 0x39))%N
    then read_digits r (10 * acc + Z.of_N (c - 0x30))%Z (S count)
    else (acc, count, s)
  end.

Definition split_sign (s : text) : bool * text :=
  match s with
  | c :: r =>
    if (c =? 0x2D)%N then (true, r)
    else if (c =? 0x2B)%N then (false, r)
    else (false, s)
  | [] => (false, [])
  end.

Definition decimal_float (s : text) : option float :=
  let '(negative, digits) := split_sign s in
  let '(whole, n1, after) := read_digits digits 0%Z 0 in
  let signed (x : float) := if negative then SFopp x else x in
  match after with
  | [] => if (0 <? n1)%nat then Some (signed (of_Z whole)) else None
  | c :: fraction =>
    if (c =? 0x2E)%N then
      let '(part, n2, rest) := read_digits fraction 0%Z 0 in
      match rest with
      | [] =>
        if (0 <? n1 + n2)%nat
        then Some (signed (of_ratio (whole * 10 ^ Z.of_nat n2 + part)%Z
                                    (10 ^ Z.of_nat n2)%Z))
        else None
      | _ :: _ => None
      end
    else None
  end.

(** The value of a decimal literal written in a statement. *)
Definition fl (s : string) : float :=
  match decimal_float (str s) with
  | Some x => x
  | None => zero
  end.

(** A stand-in for [str.lower] on ASCII letters. *)
Definition ascii_lower (s : text) : text :=
  map (fun c => if ((0x41 <=? c) && (c <=? 0x5A))%N then (c + 0x20)%N else c) s.

(** A classifier that always answers, with the two labels the source falls
    back to. *)
Definition answering_classifier : AIClassifier :=
  {| classify_payment_purpose := fun _ _ _ => Some (str "其他");
     classify_cash_flow_item := fun _ _ _ => Some (str "其他活动") |}.

(** A classifier whose every call raises. *)
Definition failing_classifier : AIClassifier :=
  {| classify_payment_purpose := fun _ _ _ => None;
     classify_cash_flow_item := fun _ _ _ => None |}.

(** Row number [entry] of voucher 银付-0001 of 1 January. *)
Definition voucher_row (entry account : string) (debit credit : string) : Row :=
  {| month := str "1";
     day := str "1";
     voucher_number := str "银付-0001";
     entry_number := str entry;
     account_name := str account;
     summary := str "付款";
     debit := Some (str debit);
     credit := Some (str credit);
     auxiliary := [] |}.

(** Two debits of 100 and two credits of 100: a balanced voucher. *)
Definition balanced_two_by_two : list Row :=
  [ voucher_row "1" "管理费用" "100" "";
    voucher_row "2" "销售费用" "100" "";
    voucher_row "3" "银行存款" "" "100";
    voucher_row "4" "银行存款" "" "100" ].

(** One credit of 300 against debits of 120, 80 and 150. *)
Definition unbalanced_one_to_three : list Row :=
  [ voucher_row "1" "管理费用" "120" "";
    voucher_row "2" "销售费用" "80" "";
    voucher_row "3" "财务费用" "150" "";
    voucher_row "4" "银行存款" "" "300" ].

(** One credit of 300 against one debit of 350. *)
Definition unbalanced_one_to_one : list Row :=
  [ voucher_row "1" "管理费用" "350" "";
    voucher_row "2" "银行存款" "" "300" ].

(** The legs the first loop of [_process_voucher_group] makes of a debit row
    and of a credit row. *)
Definition debit_leg (r : Row) : Leg :=
  {| row := r; amount := _clean_amount decimal_float (debit r) |}.

Definition credit_leg (r : Row) : Leg :=
  {| row := r; amount := _clean_amount decimal_float (credit r) |}.

(** The accounts and amounts of the debit fragments, record by record. *)
Definition fragments (payment_records : list PaymentRecord)
  : list (list (text * float)) :=
  map (fun r => map (fun e => (entry_account_name e, entry_amount e))
                    (debit_side r))
      payment_records.

End Samples.


(* ================================================================== *)
(** * Notions used to state the properties *)
(* ================================================================== *)

Module Notions.

Import AuxiliaryParser Float64 PaymentTracker.

(** [needle] occurs in [hay] as a contiguous run. *)
Definition substring (needle hay : text) : Prop :=
  exists before after, hay = before ++ needle ++ after.

(** A raw type and an alias match loosely when one contains the other. *)
Definition loosely_matches (alias raw_type : text) : Prop :=
  substring alias raw_type \/ substring raw_type alias.

(** The states [(i, items)] the outer loop of [_parse_auxiliary_manual] is in
    when it evaluates its test, from [(0, [])] on. *)
Inductive Reachable (max_value_length : Z) (lower : text -> text) (t : text)
  : nat -> list Item -> Prop :=
| reach_start : Reachable max_value_length lower t 0 []
| reach_step : forall i items i' items',
    Reachable max_value_length lower t i items ->
    loop_body max_value_length lower t i items = Continue i' items' ->
    Reachable max_value_length lower t i' items'.

(** Inside a tag, after its colon: however far one reads in [s], the closing
    brackets read never outnumber the opening ones, so the depth, which
    starts at one, stays positive. *)
Definition never_closes (s : text) : Prop :=
  forall k, count_occ N.eq_dec (firstn k s) RIGHT_BRACKET
            <= count_occ N.eq_dec (firstn k s) LEFT_BRACKET.

(** No key occurs twice in the association list. *)
Fixpoint keys_unique (d : list (text * text)) : bool :=
  match d with
  | [] => true
  | (k, _) :: d' =>
    match dict_get d' k with
    | None => keys_unique d'
    | Some _ => false
    end
  end.

(** Arithmetic over counts in a [text], whose elements are seen both as
    [codepoint] and as [N]. *)
Ltac text_lia := unfold codepoint, text in *; lia.

(** Counting a bracket past the first character of a text, when the context
    tells whether that character is the bracket counted. *)
Ltac count_head :=
  repeat match goal with
  | E : ?a = ?y |- context [count_occ N.eq_dec (?a :: ?l) ?y] =>
    rewrite (count_occ_cons_eq _ _ E)
  | E : ?a <> ?y |- context [count_occ N.eq_dec (?a :: ?l) ?y] =>
    rewrite (count_occ_cons_neq _ _ E)
  | E : ?a = ?y, H : context [count_occ N.eq_dec (?a :: ?l) ?y] |- _ =>
    rewrite (count_occ_cons_eq _ _ E) in H
  | E : ?a <> ?y, H : context [count_occ N.eq_dec (?a :: ?l) ?y] |- _ =>
    rewrite (count_occ_cons_neq _ _ E) in H
  end.

(** The position [c] holds the first colon after the opening bracket at [i]. *)
Definition first_colon (t : text) (i c : nat) : Prop :=
  i < c < length t /\ char_at t c = WIDE_COLON
  /\ forall j, i < j < c -> char_at t j <> WIDE_COLON.

(** The classifier answers both questions about a debit record. *)
Definition answers (ai_classifier : AIClassifier) (debit_record : Leg) : Prop :=
  let r := row debit_record in
  classify_payment_purpose ai_classifier (summary r) (account_name r) (auxiliary r) <> None
  /\ classify_cash_flow_item ai_classifier (summary r) (account_name r) (auxiliary r) <> None.

(** The amounts of the debit fragments of all records of a voucher, added
    up record by record. *)
Definition fragment_total (payment_records : list PaymentRecord) : float :=
  py_sum (map (fun r => py_sum (entry_amounts (debit_side r))) payment_records).

(** The rule of the specification for sharing one amount among legs, in the
    arithmetic of the code: every leg but the last receives
    [min(leg.amount, remaining)], the last one receives what remains; what a
    leg receives is taken off the remaining amount when it is positive, and a
    leg that receives nothing positive leaves it as it is. *)
Fixpoint greedy_allocation (amounts : list float) (remaining : float)
  : list float :=
  match amounts with
  | [] => []
  | a :: rest =>
    let given := match rest with
                 | [] => remaining
                 | _ :: _ => py_min a remaining
                 end in
    given :: greedy_allocation rest (if ltb zero given then sub remaining given
                                     else remaining)
  end.


(** A fragment made from a leg: the leg's account and summary, and an amount. *)
Definition fragment_of (e : DebitEntry) (p : Leg * float) : Prop :=
  entry_account_name e = account_name (row (fst p))
  /\ entry_summary e = summary (row (fst p))
  /\ entry_amount e = snd p.

(** The credit legs that received a positive amount, each with its position
    among the credit legs, counted from [first], and with its amount. *)
Definition positive_credit_shares (first : nat) (credit_records : list Leg)
           (shares : list float) : list (nat * Leg * float) :=
  filter (fun p => ltb zero (snd p))
         (combine (combine (seq first (length credit_records)) credit_records)
                  shares).

(** The record of the path of many credits and one debit for the credit leg
    [c] at position [i], which received [share] of the debit leg [d]: it
    carries the identity of the credit leg, its position counted from one and
    the number [total] of credit legs; it shows [share] as the amount of the
    credit, and its one fragment is made from the debit leg with this
    amount. *)
Definition one_debit_record (d : Leg) (total : nat) (p : nat * Leg * float)
           (r : PaymentRecord) : Prop :=
  let '(i, c, share) := p in
  payment_id r = payment_label (row c)
  /\ original_voucher r = voucher_label (row c)
  /\ credit_side r = credit_info c share
  /\ voucher_type r = MultiCreditOneDebit
  /\ entry_index r = Some (i + 1)
  /\ entry_count r = Some total
  /\ (exists e, debit_side r = [e] /\ fragment_of e (d, share))
  /\ check_info r = {| debit_total := share;
                       credit_total := share;
                       balanced := balance_state share share |}.

(** The number of opening and of closing brackets of a text. *)
Definition opening (s : text) : nat := count_occ N.eq_dec s LEFT_BRACKET.
Definition closing (s : text) : nat := count_occ N.eq_dec s RIGHT_BRACKET.

(** A value whose brackets are nested properly. *)
Definition well_nested (v : text) : Prop :=
  never_closes v /\ closing v = opening v.

(** A test for [well_nested]: [depth] counts the brackets left open. *)
Fixpoint closes_all (v : text) (depth : nat) : bool :=
  match v with
  | [] => (depth =? 0)%nat
  | c :: v' =>
    if (c =? LEFT_BRACKET)%N then closes_all v' (S depth)
    else if (c =? RIGHT_BRACKET)%N
         then match depth with
              | O => false
              | S below => closes_all v' below
              end
         else closes_all v' depth
  end.

(** A text cut into complete tags and single other characters. *)
Inductive segment : Type :=
| Tag (raw_type value : text)
| Other (c : codepoint).

Definition segment_text (s : segment) : text :=
  match s with
  | Tag raw_type value =>
    LEFT_BRACKET :: raw_type ++ WIDE_COLON :: value ++ [RIGHT_BRACKET]
  | Other c => [c]
  end.

Definition segments_text (segments : list segment) : text :=
  flat_map segment_text segments.

Fixpoint tags_of (segments : list segment) : list (text * text) :=
  match segments with
  | [] => []
  | Tag raw_type value :: rest => (raw_type, value) :: tags_of rest
  | Other _ :: rest => tags_of rest
  end.

(** A tag the scanner reads back as written: no colon in the type, no blank
    at either end of the type and of the value, and a well nested value; and a
    character between tags that opens no tag. *)
Definition well_formed (s : segment) : Prop :=
  match s with
  | Tag raw_type value =>
    ~ In WIDE_COLON raw_type /\ strip raw_type = raw_type
    /\ strip value = value /\ well_nested value
  | Other c => c <> LEFT_BRACKET
  end.

(** What is left of a text from an opening bracket on when the tag it opens
    is never completed: no colon follows the bracket, or the brackets behind
    the first colon never bring the depth back to zero. *)
Definition malformed (tail : text) : Prop :=
  exists rest,
    tail = LEFT_BRACKET :: rest
    /\ (~ In WIDE_COLON rest
        \/ exists raw value,
            rest = raw ++ WIDE_COLON :: value
            /\ ~ In WIDE_COLON raw /\ never_closes value).

(** A tag whose value holds an opening bracket of its own. *)
Definition nests (s : segment) : Prop :=
  match s with
  | Tag _ value => In LEFT_BRACKET value
  | Other _ => False
  end.

(** The voucher keys of the rows, each once, in the order of its first row. *)
Fixpoint first_keys (raw_data : list Row) : list (text * text * text) :=
  match raw_data with
  | [] => []
  | record :: rest =>
    voucher_key record
    :: filter (fun key => negb (key_eqb (voucher_key record) key))
              (first_keys rest)
  end.

(** The rows of a voucher, in the order of the file. *)
Definition rows_of (key : text * text * text) (raw_data : list Row) : list Row :=
  filter (fun record => key_eqb key (voucher_key record)) raw_data.

(** What a voucher adds to the payment records: nothing when it fails. *)
Definition produced (outcome : result (list PaymentRecord)) : list PaymentRecord :=
  match outcome with
  | Ok payment_records => payment_records
  | Err _ => []
  end.

Definition failed (outcome : result (list PaymentRecord)) : bool :=
  match outcome with
  | Ok _ => false
  | Err _ => true
  end.



(** The text [s] holds the tag 【label：value】 right after [before], with a
    value that is not empty and has no closing bracket: a match of the
    pattern 【label：([^】]+)】 at this position. *)
Definition tag_at (label value before s : text) : Prop :=
  value <> [] /\ ~ In RIGHT_BRACKET value
  /\ exists after, s = before ++ segment_text (Tag label value) ++ after.

Definition no_tag (label s : text) : Prop :=
  forall before value, ~ tag_at label value before s.

(** The leftmost match. *)
Definition first_tag (label s value : text) : Prop :=
  exists before,
    tag_at label value before s
    /\ forall before' value',
        tag_at label value' before' s -> length before <= length before'.

(** What an extraction by the pattern of [label] returns: the value of the
    leftmost match, or the empty string when there is no match. *)
Definition extracted (label s out : text) : Prop :=
  first_tag label s out \/ (no_tag label s /\ out = []).






End Notions.

(* ================================================================== *)
(** * Properties of the parser *)
(* ================================================================== *)

Unset Implicit Arguments.

Module ParserFacts.

Import AuxiliaryParser Notions Samples.

Lemma text_eqb_eq (a b : text) : Text.eqb a b = true <-> a = b.
Proof.
  revert b; induction a as [|x a IH]; intros [|y b]; simpl; split;
    try discriminate; try reflexivity.
  - intros H. apply andb_true_iff in H as [Hx Ha].
    apply N.eqb_eq in Hx. apply IH in Ha. congruence.
  - intros H. injection H as -> ->.
    rewrite N.eqb_refl. simpl. now apply IH.
Qed.

Lemma starts_with_prefix (p s : text) :
  starts_with p s = true <-> exists after, s = p ++ after.
Proof.
  revert s; induction p as [|x p IH]; intros s; simpl.
  - split; [intros _; now exists s | reflexivity].
  - destruct s as [|y s].
    + split; [discriminate | intros [a Ha]; discriminate].
    + rewrite andb_true_iff, N.eqb_eq, IH. split.
      * intros [-> [a ->]]. now exists a.
      * intros [a Ha]. injection Ha as -> ->. split; [reflexivity | now exists a].
Qed.

Lemma contains_substring (needle hay : text) :
  contains needle hay = true <-> substring needle hay.
Proof.
  unfold substring. induction hay as [|y hay IH]; simpl.
  - rewrite orb_false_r, starts_with_prefix. split.
    + intros [a Ha]. now exists [], a.
    + intros [b [a Ha]].
      destruct b; [|discriminate]. simpl in Ha. now exists a.
  - rewrite orb_true_iff, starts_with_prefix, IH. split.
    + intros [[a Ha] | [b [a Ha]]].
      * now exists [], a.
      * exists (y :: b), a. simpl. now rewrite Ha.
    + intros [[|z b] [a Ha]].
      * left. now exists a.
      * right. injection Ha as -> ->. now exists b, a.
Qed.

Lemma dict_get_sound (d : list (text * text)) (k v : text) :
  dict_get d k = Some v -> In (k, v) d.
Proof.
  induction d as [|[k' v'] d IH]; simpl; [discriminate|].
  destruct (Text.eqb k' k) eqn:E.
  - apply text_eqb_eq in E. intros H. injection H as ->. left. now subst.
  - intros H. right. now apply IH.
Qed.

Lemma dict_get_none (d : list (text * text)) (k : text) :
  dict_get d k = None -> forall v, ~ In (k, v) d.
Proof.
  induction d as [|[k' v'] d IH]; simpl; [tauto|].
  destruct (Text.eqb k' k) eqn:E; [discriminate|].
  intros H v [Heq | Hin].
  - injection Heq as -> ->.
    assert (Text.eqb k k = true) by now apply text_eqb_eq.
    congruence.
  - now apply (IH H v).
Qed.

Lemma dict_get_complete (d : list (text * text)) (k v : text) :
  keys_unique d = true -> In (k, v) d -> dict_get d k = Some v.
Proof.
  induction d as [|[k' v'] d IH]; simpl; [tauto|].
  destruct (dict_get d k') eqn:G; [discriminate|].
  intros U [Heq | Hin].
  - injection Heq as -> ->.
    assert (Text.eqb k k = true) as -> by now apply text_eqb_eq.
    reflexivity.
  - destruct (Text.eqb k' k) eqn:E.
    + apply text_eqb_eq in E. subst k'.
      exfalso. exact (dict_get_none _ _ G v Hin).
    + now apply IH.
Qed.

Lemma type_mapping_keys_unique : keys_unique type_mapping = true.
Proof. vm_compute. reflexivity. Qed.

(** ** Type normalization *)

Lemma find_first {A : Type} (f : A -> bool) (before after : list A) (x : A) :
  (forall y, In y before -> f y = false) -> f x = true ->
  find f (before ++ x :: after) = Some x.
Proof.
  intros Hb Hx. induction before as [|y before IH]; simpl.
  - now rewrite Hx.
  - rewrite (Hb y) by now left.
    apply IH. intros z Hz. apply Hb. now right.
Qed.

Lemma loose_match_test (alias raw : text) :
  contains alias raw || contains raw alias = true <-> loosely_matches alias raw.
Proof.
  unfold loosely_matches.
  now rewrite orb_true_iff, !contains_substring.
Qed.

Lemma loose_match_test_false (alias raw : text) :
  ~ loosely_matches alias raw -> contains alias raw || contains raw alias = false.
Proof.
  intros H. apply not_true_is_false. intros E. now apply H, loose_match_test.
Qed.

Lemma exact_miss (raw : text) :
  (forall v, ~ In (raw, v) type_mapping) -> dict_get type_mapping raw = None.
Proof.
  intros H. destruct (dict_get type_mapping raw) as [v|] eqn:G; [|reflexivity].
  exfalso. exact (H v (dict_get_sound _ _ _ G)).
Qed.

(** C9 (as amended): the canonical type is found by exact lookup in the alias
    table; on a miss, it is the canonical type of the first alias, in the
    order of the table, that contains the raw type or is contained in it; on
    a second miss, it is the raw type in lower case with every space replaced
    by an underscore. *)
Theorem standardize_type_chain (lower : text -> text) (raw : text) :
  (forall v, In (raw, v) type_mapping -> _standardize_type lower raw = v)
  /\ ((forall v, ~ In (raw, v) type_mapping) ->
      (forall before alias v after,
          type_mapping = before ++ (alias, v) :: after ->
          loosely_matches alias raw ->
          (forall a w, In (a, w) before -> ~ loosely_matches a raw) ->
          _standardize_type lower raw = v)
      /\ ((forall a w, In (a, w) type_mapping -> ~ loosely_matches a raw) ->
          _standardize_type lower raw
          = replace_char SPACE UNDERSCORE (lower raw))).
Proof.
  split.
  - intros v Hin. unfold _standardize_type.
    now rewrite (dict_get_complete _ _ _ type_mapping_keys_unique Hin).
  - intros Hmiss. unfold _standardize_type.
    rewrite (exact_miss _ Hmiss). split.
    + intros before alias v after Htable Hmatch Hfirst.
      rewrite Htable.
      rewrite find_first; [reflexivity | | now apply loose_match_test].
      intros [a w] Hin. apply loose_match_test_false. now apply (Hfirst a w).
    + intros Hnone.
      destruct (find _ type_mapping) as [[a w]|] eqn:F; [|reflexivity].
      apply find_some in F as [Hin Htest]. simpl in Htest.
      exfalso. apply (Hnone a w Hin). now apply loose_match_test.
Qed.

Lemma no_alias_by_test (raw : text) :
  dict_get type_mapping raw = None ->
  find (fun kv => contains (fst kv) raw || contains raw (fst kv)) type_mapping = None ->
  (forall v, ~ In (raw, v) type_mapping)
  /\ (forall a w, In (a, w) type_mapping -> ~ loosely_matches a raw).
Proof.
  intros G F. split.
  - now apply dict_get_none.
  - intros a w Hin Hm. apply loose_match_test in Hm.
    pose proof (find_none _ _ F (a, w) Hin) as E. simpl in E. congruence.
Qed.

(** The chain at the raw type Cost Center, which misses twice. *)
Lemma standardize_type_chain_witness :
  _standardize_type ascii_lower (str "Cost Center")
  = replace_char SPACE UNDERSCORE (ascii_lower (str "Cost Center")).
Proof.
  destruct (no_alias_by_test (str "Cost Center")) as [Hexact Hloose];
    [vm_compute; reflexivity | vm_compute; reflexivity |].
  exact (proj2 (proj2 (standardize_type_chain ascii_lower (str "Cost Center"))
                      Hexact) Hloose).
Defined.

(** C9, counterexample: the raw type "Cost Center" matches no alias, exactly
    or loosely; the code returns "cost_center", with the space turned into an
    underscore, and not "costcenter", the lower-cased type with its space
    removed. *)
Lemma standardize_type_keeps_spaces_as_underscores :
  ((forall v, ~ In (str "Cost Center", v) type_mapping)
   /\ (forall a w, In (a, w) type_mapping -> ~ loosely_matches a (str "Cost Center")))
  /\ _standardize_type ascii_lower (str "Cost Center") = str "cost_center"
  /\ remove_char SPACE (ascii_lower (str "Cost Center")) = str "costcenter"
  /\ _standardize_type ascii_lower (str "Cost Center")
     <> remove_char SPACE (ascii_lower (str "Cost Center")).
Proof.
  split; [apply no_alias_by_test; vm_compute; reflexivity|].
  split; [vm_compute; reflexivity|].
  split; [vm_compute; reflexivity|].
  vm_compute. discriminate.
Qed.

(** ** The nested value *)

(** C6: the text 【托外流水号：粤和立【2022】施工【0017】号】 parses to exactly one
    tag, of canonical type external_flow_number and of value
    粤和立【2022】施工【0017】号: the colon is found at index 6, and the
    bracket scan started behind it, at index 7 with depth one, goes through
    the two nested pairs and ends with depth zero at index 26, the end of the
    text, just past the last closing bracket. *)
Theorem nested_brackets_stay_in_the_value (lower : text -> text) :
  let t := str "【托外流水号：粤和立【2022】施工【0017】号】" in
  parse_auxiliary_info 10000 lower (Some t)
  = Some [ {| raw_type := str "托外流水号";
              item_type := str "external_flow_number";
              item_value := str "粤和立【2022】施工【0017】号";
              display_type := str "托外流水号";
              value_warning := None |} ]
  /\ scan_colon (skipn 1 t) 1 = (Some 6, 7)
  /\ scan_close (skipn 7 t) 7 1 = (26, 0)
  /\ length t = 26.
Proof.
  repeat split; vm_compute; reflexivity.
Qed.

(** ** Truncation *)

Lemma last_is_nth (s : text) (d : codepoint) :
  last s d = nth (length s - 1) s d.
Proof.
  induction s as [|a s IH]; [reflexivity|].
  destruct s as [|b s]; [reflexivity|].
  change (last (a :: b :: s) d) with (last (b :: s) d).
  rewrite IH. simpl. now rewrite Nat.sub_0_r.
Qed.

Lemma last_char_at (s : text) :
  s <> [] -> last_char s = Some (char_at s (length s - 1)).
Proof.
  destruct s as [|a s]; [congruence|]. intros _.
  unfold last_char, char_at. now rewrite last_is_nth.
Qed.

Lemma last_char_firstn (s : text) (j : nat) :
  j < length s -> last_char (firstn (S j) s) = Some (char_at s j).
Proof.
  intros Hj.
  assert (L : length (firstn (S j) s) = S j) by (rewrite length_firstn; lia).
  rewrite last_char_at by (intros E; rewrite E in L; discriminate).
  rewrite L. unfold char_at. rewrite nth_firstn.
  replace (S j - 1) with j by lia.
  now rewrite (proj2 (Nat.ltb_lt j (S j))) by lia.
Qed.

Lemma walk_back_le (tv : text) (k : nat) : walk_back tv k <= k.
Proof.
  induction k as [|j IH]; simpl; [lia|].
  destruct (is_special (char_at tv j)); lia.
Qed.

Lemma walk_back_stop (tv : text) (k j : nat) :
  walk_back tv k = S j -> is_special (char_at tv j) = false.
Proof.
  induction k as [|i IH]; simpl; [discriminate|].
  destruct (is_special (char_at tv i)) eqn:E; [exact IH|].
  intros H. injection H as <-. exact E.
Qed.

Lemma walk_back_zero (tv : text) (k : nat) :
  walk_back tv k = 0 -> forall j, j < k -> is_special (char_at tv j) = true.
Proof.
  induction k as [|i IH]; simpl; [lia|].
  destruct (is_special (char_at tv i)) eqn:E; [|discriminate].
  intros H j Hj. destruct (Nat.eq_dec j i) as [->|Hne]; [exact E|].
  apply IH; [exact H | lia].
Qed.

(** What [_validate_and_truncate_value] returns for a value over the limit. *)
Lemma truncate_over_limit (max_value_length : Z) (value ty : text) :
  value <> [] ->
  (max_value_length < Z.of_nat (length value))%Z ->
  exists stored warning,
    _validate_and_truncate_value max_value_length value ty
    = (stored, true, Some warning)
    /\ (exists dropped, slice_to value max_value_length = stored ++ dropped)
    /\ forall c, last_char stored = Some c -> is_special c = true ->
         stored = slice_to value max_value_length
         /\ Forall (fun d => is_special d = true) (slice_to value max_value_length).
Proof.
  intros Hne Hlen. unfold _validate_and_truncate_value.
  destruct value as [|c0 value']; [congruence|].
  set (value := c0 :: value') in *.
  rewrite (proj2 (Z.leb_gt _ _)) by lia.
  set (tv := slice_to value max_value_length).
  destruct (last_char tv) as [c|] eqn:L.
  - destruct (is_special c) eqn:Sc.
    + destruct (walk_back tv (length tv - 1)) as [|j] eqn:W.
      * eexists _, _. split; [reflexivity|].
        split; [exists []; now rewrite app_nil_r|].
        intros _ _ _. split; [reflexivity|].
        assert (Hnil : tv <> []) by (intros E; rewrite E in L; discriminate).
        rewrite last_char_at in L by exact Hnil. injection L as L.
        apply Forall_nth. intros i d Hi.
        rewrite (nth_indep tv d 0%N Hi). fold (char_at tv i).
        destruct (Nat.eq_dec i (length tv - 1)) as [->|Hlt].
        -- now rewrite L.
        -- apply (walk_back_zero tv _ W). lia.
      * eexists _, _. split; [reflexivity|].
        split; [exists (skipn (S j) tv); now rewrite firstn_skipn|].
        intros c' Hc' Sc'. exfalso.
        pose proof (walk_back_le tv (length tv - 1)) as Hle.
        rewrite last_char_firstn in Hc' by lia. injection Hc' as <-.
        rewrite (walk_back_stop tv _ _ W) in Sc'. discriminate.
    + eexists _, _. split; [reflexivity|].
      split; [exists []; now rewrite app_nil_r|].
      intros c' Hc' Sc'. congruence.
  - eexists _, _. split; [reflexivity|].
    split; [exists []; now rewrite app_nil_r|].
    intros c' Hc' Sc'. congruence.
Qed.

(** ** The outer loop *)

Lemma scan_colon_advances (rest : text) (i : nat) :
  i <= snd (scan_colon rest i).
Proof.
  revert i; induction rest as [|c rest IH]; intros i; simpl; [lia|].
  destruct (c =? WIDE_COLON)%N; simpl; [lia|].
  specialize (IH (S i)). lia.
Qed.

Lemma scan_close_advances (rest : text) (i depth : nat) :
  i <= fst (scan_close rest i depth).
Proof.
  revert i depth; induction rest as [|c rest IH]; intros i [|below]; simpl;
    try lia.
  destruct (c =? LEFT_BRACKET)%N; [|destruct (c =? RIGHT_BRACKET)%N].
  - specialize (IH (S i) (S (S below))). lia.
  - specialize (IH (S i) below). lia.
  - specialize (IH (S i) (S below)). lia.
Qed.

(** One pass of the loop leaves with the items it had, or goes on further to
    the right with the same items or with one more. *)
Lemma loop_body_cases (m : Z) (lower : text -> text) (t : text) (i : nat)
      (items : list Item) :
  loop_body m lower t i items = Return items
  \/ (exists i', i < i' /\ loop_body m lower t i items = Continue i' items)
  \/ (exists i' raw value,
        i < i'
        /\ loop_body m lower t i items
           = Continue i' (items ++ [make_item m lower raw value])).
Proof.
  unfold loop_body.
  destruct (i <? length t); [|now left].
  destruct (char_at t i =? LEFT_BRACKET)%N; [|right; left; exists (S i); split; [lia|reflexivity]].
  pose proof (scan_colon_advances (skipn (S i) t) (S i)) as Hc.
  destruct (scan_colon (skipn (S i) t) (S i)) as [[c|] j]; [|now left].
  pose proof (scan_close_advances (skipn j t) j 1) as Hb.
  destruct (scan_close (skipn j t) j 1) as [j' [|d]]; [|now left].
  simpl in Hc, Hb. right; right. eexists _, _, _. split; [|reflexivity]. lia.
Qed.

Lemma loop_body_stops_at_end (m : Z) (lower : text -> text) (t : text) (i : nat)
      (items : list Item) :
  length t <= i -> loop_body m lower t i items = Return items.
Proof.
  intros H. unfold loop_body.
  now rewrite (proj2 (Nat.ltb_ge i (length t))) by exact H.
Qed.

Lemma run_loop_terminates (m : Z) (lower : text -> text) (t : text) :
  forall fuel i items,
    length t - i < fuel -> exists r, run_loop m lower fuel t i items = Some r.
Proof.
  induction fuel as [|fuel IH]; intros i items Hf; [lia|]. simpl.
  destruct (le_lt_dec (length t) i) as [Hend|Hin].
  - rewrite loop_body_stops_at_end by exact Hend. now exists items.
  - destruct (loop_body_cases m lower t i items)
      as [E | [(i' & Hi & E) | (i' & raw & value & Hi & E)]]; rewrite E.
    + now exists items.
    + apply IH. lia.
    + apply IH. lia.
Qed.

Lemma run_loop_more_fuel (m : Z) (lower : text -> text) (t : text) :
  forall fuel fuel' i items r,
    run_loop m lower fuel t i items = Some r -> fuel <= fuel' ->
    run_loop m lower fuel' t i items = Some r.
Proof.
  induction fuel as [|fuel IH]; intros fuel' i items r H Hle; [discriminate|].
  destruct fuel' as [|fuel']; [lia|]. simpl in *.
  destruct (loop_body m lower t i items) as [i' items'|items']; [|exact H].
  apply (IH fuel' i' items' r H). lia.
Qed.

Lemma run_loop_result_unique (m : Z) (lower : text -> text) (t : text)
      (f1 f2 i : nat) (items r1 r2 : list Item) :
  run_loop m lower f1 t i items = Some r1 ->
  run_loop m lower f2 t i items = Some r2 -> r1 = r2.
Proof.
  intros H1 H2.
  apply (run_loop_more_fuel m lower t f1 (Nat.max f1 f2)) in H1; [|lia].
  apply (run_loop_more_fuel m lower t f2 (Nat.max f1 f2)) in H2; [|lia].
  congruence.
Qed.

(** Every item of the result was already there or was built by [make_item]. *)
Lemma run_loop_items (m : Z) (lower : text -> text) (t : text) (P : Item -> Prop) :
  (forall raw value, P (make_item m lower raw value)) ->
  forall fuel i items r,
    Forall P items -> run_loop m lower fuel t i items = Some r -> Forall P r.
Proof.
  intros Hmk. induction fuel as [|fuel IH]; intros i items r Hitems H;
    [discriminate|]. simpl in H.
  destruct (loop_body_cases m lower t i items)
    as [E | [(i' & Hi & E) | (i' & raw & value & Hi & E)]]; rewrite E in H.
  - injection H as <-. exact Hitems.
  - exact (IH _ _ _ Hitems H).
  - apply (IH _ _ _) in H; [exact H|].
    apply Forall_app. split; [exact Hitems|]. constructor; [apply Hmk | constructor].
Qed.

Lemma parse_is_manual_on_stripped (m : Z) (lower : text -> text) (t : text) :
  parse_auxiliary_info m lower (Some t) = _parse_auxiliary_manual m lower (strip t).
Proof.
  unfold parse_auxiliary_info.
  destruct t as [|c t]; [reflexivity|].
  destruct (strip (c :: t)); reflexivity.
Qed.

Lemma parse_items (m : Z) (lower : text -> text) (P : Item -> Prop) :
  (forall raw value, P (make_item m lower raw value)) ->
  forall t r, parse_auxiliary_info m lower t = Some r -> Forall P r.
Proof.
  intros Hmk [t|] r H.
  - rewrite parse_is_manual_on_stripped in H.
    exact (run_loop_items m lower _ P Hmk _ _ _ _ (Forall_nil P) H).
  - injection H as <-. constructor.
Qed.

Lemma make_item_fields (m : Z) (lower : text -> text) (raw value : text) :
  let out := _validate_and_truncate_value m value (_standardize_type lower raw) in
  item_value (make_item m lower raw value) = fst (fst out)
  /\ value_warning (make_item m lower raw value)
     = (if snd (fst out) then snd out else None).
Proof.
  unfold make_item.
  destruct (_validate_and_truncate_value m value (_standardize_type lower raw))
    as [[stored flag] warning].
  split; reflexivity.
Qed.

(** ** Malformed text *)

Lemma skipn_char_at (t : text) :
  forall i, i < length t -> skipn i t = char_at t i :: skipn (S i) t.
Proof.
  induction t as [|a t IH]; intros i Hi; simpl in Hi; [lia|].
  destruct i as [|i]; [reflexivity|].
  rewrite !skipn_cons. rewrite IH by lia. reflexivity.
Qed.

Lemma scan_colon_without_colon (rest : text) :
  ~ In WIDE_COLON rest -> forall i, fst (scan_colon rest i) = None.
Proof.
  induction rest as [|c rest IH]; intros Hno i; simpl; [reflexivity|].
  destruct (c =? WIDE_COLON)%N eqn:E.
  - apply N.eqb_eq in E. exfalso. apply Hno. now left.
  - apply IH. intros H. apply Hno. now right.
Qed.

Lemma scan_colon_finds_first (t : text) (c : nat) :
  c < length t -> char_at t c = WIDE_COLON ->
  forall gap j, c = j + gap ->
    (forall k, j <= k < c -> char_at t k <> WIDE_COLON) ->
    scan_colon (skipn j t) j = (Some c, S c).
Proof.
  intros Hc Hcolon. induction gap as [|gap IH]; intros j Hj Hbefore.
  - replace j with c by lia. rewrite skipn_char_at by exact Hc.
    cbn [scan_colon]. rewrite Hcolon, N.eqb_refl. reflexivity.
  - rewrite skipn_char_at by lia. cbn [scan_colon].
    destruct (char_at t j =? WIDE_COLON)%N eqn:E.
    + apply N.eqb_eq in E. exfalso. apply (Hbefore j); [lia | exact E].
    + apply IH; [lia|]. intros k Hk. apply Hbefore. lia.
Qed.

Lemma scan_close_stays_open (s : text) :
  forall i depth,
    (forall k, count_occ N.eq_dec (firstn k s) RIGHT_BRACKET
               <= depth + count_occ N.eq_dec (firstn k s) LEFT_BRACKET) ->
    snd (scan_close s i (S depth)) <> 0.
Proof.
  induction s as [|c s IH]; intros i depth H; simpl; [discriminate|].
  destruct (c =? LEFT_BRACKET)%N eqn:EL; [|destruct (c =? RIGHT_BRACKET)%N eqn:ER].
  - apply N.eqb_eq in EL. apply IH. intros k.
    specialize (H (S k)). rewrite firstn_cons in H.
    rewrite count_occ_cons_neq in H by (rewrite EL; discriminate).
    rewrite count_occ_cons_eq in H by exact EL. text_lia.
  - apply N.eqb_eq in ER.
    destruct depth as [|depth].
    + specialize (H 1). simpl firstn in H.
      rewrite count_occ_cons_eq in H by exact ER.
      rewrite count_occ_cons_neq in H by (rewrite ER; discriminate).
      simpl in H. text_lia.
    + apply IH. intros k.
      specialize (H (S k)). rewrite firstn_cons in H.
      rewrite count_occ_cons_eq in H by exact ER.
      rewrite count_occ_cons_neq in H by (rewrite ER; discriminate). text_lia.
  - apply N.eqb_neq in EL. apply N.eqb_neq in ER. apply IH. intros k.
    specialize (H (S k)). rewrite firstn_cons in H.
    rewrite !count_occ_cons_neq in H by assumption. exact H.
Qed.

(** At an opening bracket that no colon follows, or whose colon is followed
    by a text in which the depth stays positive, the loop is left with the
    items gathered so far. *)
Lemma loop_body_malformed (m : Z) (lower : text -> text) (t : text) (i : nat)
      (items : list Item) :
  i < length t -> char_at t i = LEFT_BRACKET ->
  (~ In WIDE_COLON (skipn (S i) t)
   \/ exists c, first_colon t i c /\ never_closes (skipn (S c) t)) ->
  loop_body m lower t i items = Return items.
Proof.
  intros Hi Hopen Hbad. unfold loop_body.
  rewrite (proj2 (Nat.ltb_lt i (length t))) by exact Hi.
  rewrite Hopen, N.eqb_refl.
  destruct Hbad as [Hno | (c & (Hrange & Hcolon & Hfirst) & Hdepth)].
  - pose proof (scan_colon_without_colon _ Hno (S i)) as E.
    destruct (scan_colon (skipn (S i) t) (S i)) as [colon_pos j].
    simpl in E. now rewrite E.
  - rewrite (scan_colon_finds_first t c (proj2 Hrange) Hcolon (c - S i) (S i))
      by (try lia; intros k Hk; apply Hfirst; lia).
    pose proof (scan_close_stays_open (skipn (S c) t) (S c) 0 Hdepth) as E.
    destruct (scan_close (skipn (S c) t) (S c) 1) as [j [|d]]; [|reflexivity].
    simpl in E. congruence.
Qed.

Lemma reachable_result (m : Z) (lower : text -> text) (t : text) (i : nat)
      (items : list Item) :
  Reachable m lower t i items ->
  forall fuel r, run_loop m lower fuel t i items = Some r ->
                 _parse_auxiliary_manual m lower t = Some r.
Proof.
  induction 1 as [|i items i' items' Hreach IH Hstep]; intros fuel r Hrun.
  - unfold _parse_auxiliary_manual.
    destruct (run_loop_terminates m lower t (S (length t)) 0 []) as [r' Hr'];
      [lia|].
    rewrite Hr'. f_equal. exact (run_loop_result_unique _ _ _ _ _ _ _ _ _ Hr' Hrun).
  - apply (IH (S fuel)). simpl. now rewrite Hstep.
Qed.

(** ** Reading back what was written *)

Lemma skipn_past (pre : text) (c : codepoint) (r : text) :
  skipn (S (length pre)) (pre ++ c :: r) = r.
Proof.
  induction pre as [|a pre IH]; [reflexivity|]. simpl length.
  rewrite <- app_comm_cons, skipn_cons. exact IH.
Qed.

Lemma firstn_front (a r : text) : firstn (length a) (a ++ r) = a.
Proof.
  induction a as [|x a IH]; [reflexivity|]. simpl. now rewrite IH.
Qed.

Lemma scan_colon_over_type (raw r : text) :
  ~ In WIDE_COLON raw ->
  forall i, scan_colon (raw ++ WIDE_COLON :: r) i
            = (Some (i + length raw), S (i + length raw)).
Proof.
  induction raw as [|a raw IH]; intros Hno i.
  - cbn [app scan_colon length]. rewrite N.eqb_refl, Nat.add_0_r. reflexivity.
  - cbn [app scan_colon length].
    assert ((a =? WIDE_COLON)%N = false) as ->
        by (apply N.eqb_neq; intros E; apply Hno; now left).
    rewrite IH by (intros H; apply Hno; now right).
    now replace (S i + length raw) with (i + S (length raw)) by lia.
Qed.

(** Over a value that never closes the depth it started with, the bracket
    scan goes through and comes out with the depth the value leaves. *)
Lemma scan_close_over_value (v r : text) :
  forall i depth,
    (forall k, closing (firstn k v) <= depth + opening (firstn k v)) ->
    scan_close (v ++ r) i (S depth)
    = scan_close r (i + length v) (S (depth + opening v - closing v)).
Proof.
  unfold opening, closing.
  induction v as [|a v IH]; intros i depth H.
  - cbn [app length count_occ].
    rewrite !Nat.add_0_r, Nat.sub_0_r. reflexivity.
  - pose proof (H (S (length v))) as Hall.
    rewrite firstn_cons, firstn_all in Hall.
    cbn [app scan_close length].
    destruct (a =? LEFT_BRACKET)%N eqn:EL;
      [|destruct (a =? RIGHT_BRACKET)%N eqn:ER].
    + apply N.eqb_eq in EL.
      assert (NR : a <> RIGHT_BRACKET) by (rewrite EL; discriminate).
      count_head. rewrite IH.
      * f_equal; text_lia.
      * intros k. specialize (H (S k)). rewrite firstn_cons in H.
        count_head. text_lia.
    + apply N.eqb_eq in ER.
      assert (NL : a <> LEFT_BRACKET) by (rewrite ER; discriminate).
      count_head.
      destruct depth as [|depth].
      * specialize (H 1). cbn [firstn] in H. count_head.
        cbn [count_occ] in H. text_lia.
      * rewrite IH.
        -- f_equal; text_lia.
        -- intros k. specialize (H (S k)). rewrite firstn_cons in H.
           count_head. text_lia.
    + apply N.eqb_neq in EL. apply N.eqb_neq in ER.
      count_head. rewrite IH.
      * f_equal; text_lia.
      * intros k. specialize (H (S k)). rewrite firstn_cons in H.
        count_head. exact H.
Qed.

Lemma scan_close_at_zero (rest : text) (i : nat) : scan_close rest i 0 = (i, 0).
Proof. destruct rest; reflexivity. Qed.

Lemma loop_body_over_tag (m : Z) (lower : text -> text)
      (pre raw value post : text) (items : list Item) :
  well_formed (Tag raw value) ->
  loop_body m lower (pre ++ segment_text (Tag raw value) ++ post)
            (length pre) items
  = Continue (length (pre ++ segment_text (Tag raw value)))
             (items ++ [make_item m lower raw value]).
Proof.
  intros (Hcolon & Hraw & Hvalue & Hnever & Hequal).
  unfold segment_text.
  set (t := pre ++ (LEFT_BRACKET :: raw ++ WIDE_COLON :: value ++ [RIGHT_BRACKET])
                ++ post).
  assert (Et : t = pre ++ LEFT_BRACKET
                       :: (raw ++ WIDE_COLON :: value ++ RIGHT_BRACKET :: post)).
  { unfold t. simpl. rewrite <- !app_assoc. simpl.
    rewrite <- !app_assoc. reflexivity. }
  assert (Et2 : t = (pre ++ LEFT_BRACKET :: raw)
                      ++ WIDE_COLON :: (value ++ RIGHT_BRACKET :: post)).
  { rewrite Et. rewrite <- app_assoc. reflexivity. }
  assert (L2 : length (pre ++ LEFT_BRACKET :: raw) = S (length pre) + length raw).
  { rewrite length_app. simpl. lia. }
  unfold loop_body.
  assert (Hlen : length pre < length t).
  { rewrite Et, length_app. simpl. lia. }
  rewrite (proj2 (Nat.ltb_lt _ _) Hlen).
  assert (Hopen : char_at t (length pre) = LEFT_BRACKET).
  { unfold char_at. rewrite Et. apply nth_middle. }
  rewrite Hopen, N.eqb_refl.
  assert (S1 : skipn (S (length pre)) t
               = raw ++ WIDE_COLON :: value ++ RIGHT_BRACKET :: post).
  { rewrite Et. apply skipn_past. }
  rewrite S1, (scan_colon_over_type raw _ Hcolon).
  assert (S2 : skipn (S (S (length pre) + length raw)) t
               = value ++ RIGHT_BRACKET :: post).
  { rewrite <- L2, Et2. apply skipn_past. }
  rewrite S2.
  rewrite (scan_close_over_value value (RIGHT_BRACKET :: post) _ 0)
    by (intros k; apply Hnever).
  rewrite Hequal. replace (0 + opening value - opening value) with 0 by lia.
  cbn [scan_close].
  assert (N1 : (RIGHT_BRACKET =? LEFT_BRACKET)%N = false) by reflexivity.
  rewrite N1, N.eqb_refl, scan_close_at_zero.
  assert (Sl1 : slice t (S (length pre)) (S (length pre) + length raw) = raw).
  { unfold slice. rewrite S1.
    replace (S (length pre) + length raw - S (length pre)) with (length raw) by lia.
    apply firstn_front. }
  rewrite Sl1, Hraw.
  assert (Sl2 : slice t (S (S (length pre) + length raw))
                      (S (S (S (length pre) + length raw) + length value) - 1)
                = value).
  { unfold slice. rewrite S2.
    replace (S (S (S (length pre) + length raw) + length value) - 1
             - S (S (length pre) + length raw)) with (length value) by lia.
    apply firstn_front. }
  rewrite Sl2, Hvalue.
  f_equal. repeat (rewrite length_app; cbn [length]). text_lia.
Qed.

Lemma loop_body_over_other (m : Z) (lower : text -> text)
      (pre : text) (c : codepoint) (post : text) (items : list Item) :
  c <> LEFT_BRACKET ->
  loop_body m lower (pre ++ segment_text (Other c) ++ post) (length pre) items
  = Continue (length (pre ++ segment_text (Other c))) items.
Proof.
  intros Hc. simpl. unfold loop_body.
  assert (Hlen : length pre < length (pre ++ c :: post)).
  { rewrite length_app. simpl. lia. }
  rewrite (proj2 (Nat.ltb_lt _ _) Hlen).
  unfold char_at. rewrite nth_middle.
  rewrite (proj2 (N.eqb_neq _ _) Hc).
  f_equal. rewrite length_app. simpl. lia.
Qed.

Lemma segments_are_read (m : Z) (lower : text -> text) (segments : list segment)
      (tail : text) :
  Forall well_formed segments ->
  forall pre items,
    Reachable m lower (pre ++ segments_text segments ++ tail) (length pre) items ->
    Reachable m lower (pre ++ segments_text segments ++ tail)
              (length (pre ++ segments_text segments))
              (items ++ map (fun p => make_item m lower (fst p) (snd p))
                            (tags_of segments)).
Proof.
  induction 1 as [|seg segments Hseg Hall IH]; intros pre items Hreach.
  - cbn [segments_text flat_map tags_of map app] in *.
    rewrite !app_nil_r. exact Hreach.
  - assert (Esplit : segments_text (seg :: segments)
                     = segment_text seg ++ segments_text segments) by reflexivity.
    rewrite Esplit in *. clear Esplit.
    assert (Et : pre ++ (segment_text seg ++ segments_text segments) ++ tail
                 = (pre ++ segment_text seg) ++ segments_text segments ++ tail)
      by (now rewrite <- !app_assoc).
    rewrite Et in *. rewrite (app_assoc pre).
    specialize (IH (pre ++ segment_text seg)).
    destruct seg as [raw value|c].
    + cbn [tags_of map fst snd].
      replace (items ++ make_item m lower raw value
                 :: map (fun p => make_item m lower (fst p) (snd p))
                        (tags_of segments))
        with ((items ++ [make_item m lower raw value])
                ++ map (fun p => make_item m lower (fst p) (snd p))
                       (tags_of segments))
        by (now rewrite <- app_assoc).
      apply IH. eapply reach_step; [exact Hreach|].
      rewrite <- app_assoc. now apply loop_body_over_tag.
    + cbn [tags_of]. apply IH. eapply reach_step; [exact Hreach|].
      rewrite <- app_assoc. now apply loop_body_over_other.
Qed.

(** The scan of a text that begins with complete tags comes to their end
    with exactly these tags. *)
Lemma segments_reached (m : Z) (lower : text -> text) (segments : list segment)
      (tail : text) :
  Forall well_formed segments ->
  Reachable m lower (segments_text segments ++ tail)
            (length (segments_text segments))
            (map (fun p => make_item m lower (fst p) (snd p)) (tags_of segments)).
Proof.
  intros Hall.
  exact (segments_are_read m lower segments tail Hall [] [] (reach_start _ _ _)).
Qed.

Lemma closes_all_sound (v : text) :
  forall depth,
    closes_all v depth = true ->
    (forall k, closing (firstn k v) <= depth + opening (firstn k v))
    /\ closing v = depth + opening v.
Proof.
  unfold opening, closing.
  induction v as [|a v IH]; intros depth H; cbn [closes_all] in H.
  - apply Nat.eqb_eq in H. subst. split; [intros k; rewrite firstn_nil|];
      simpl; lia.
  - destruct (a =? LEFT_BRACKET)%N eqn:EL;
      [|destruct (a =? RIGHT_BRACKET)%N eqn:ER].
    + apply N.eqb_eq in EL.
      assert (NR : a <> RIGHT_BRACKET) by (rewrite EL; discriminate).
      apply IH in H as [Hk He]. split.
      * intros [|k]; [simpl; lia|]. rewrite firstn_cons.
        specialize (Hk k). count_head. text_lia.
      * count_head. text_lia.
    + apply N.eqb_eq in ER.
      assert (NL : a <> LEFT_BRACKET) by (rewrite ER; discriminate).
      destruct depth as [|depth]; [discriminate|].
      apply IH in H as [Hk He]. split.
      * intros [|k]; [simpl; lia|]. rewrite firstn_cons.
        specialize (Hk k). count_head. text_lia.
      * count_head. text_lia.
    + apply N.eqb_neq in EL. apply N.eqb_neq in ER.
      apply IH in H as [Hk He]. split.
      * intros [|k]; [simpl; lia|]. rewrite firstn_cons.
        specialize (Hk k). count_head. exact Hk.
      * count_head. exact He.
Qed.

Lemma closes_all_well_nested (v : text) :
  closes_all v 0 = true -> well_nested v.
Proof.
  intros H. apply closes_all_sound in H as [Hk He].
  split; [exact Hk | exact He].
Qed.

Lemma segments_are_parsed (m : Z) (lower : text -> text) (segments : list segment) :
  Forall well_formed segments ->
  _parse_auxiliary_manual m lower (segments_text segments)
  = Some (map (fun p => make_item m lower (fst p) (snd p)) (tags_of segments)).
Proof.
  intros Hall.
  pose proof (segments_reached m lower segments [] Hall) as Hreach.
  rewrite app_nil_r in Hreach.
  apply (reachable_result _ _ _ _ _ Hreach 1). simpl.
  now rewrite loop_body_stops_at_end by lia.
Qed.

Lemma loop_body_over_malformed (m : Z) (lower : text -> text)
      (pre tail : text) (items : list Item) :
  malformed tail ->
  loop_body m lower (pre ++ tail) (length pre) items = Return items.
Proof.
  intros (rest & -> & Hbad). unfold loop_body.
  assert (Hlen : length pre < length (pre ++ LEFT_BRACKET :: rest)).
  { rewrite length_app. simpl. lia. }
  rewrite (proj2 (Nat.ltb_lt _ _) Hlen).
  unfold char_at at 1. rewrite nth_middle, N.eqb_refl, skipn_past.
  destruct Hbad as [Hno | (raw & value & -> & Hno & Hopen)].
  - pose proof (scan_colon_without_colon _ Hno (S (length pre))) as E.
    destruct (scan_colon rest (S (length pre))) as [colon_pos j].
    simpl in E. now rewrite E.
  - rewrite (scan_colon_over_type raw value Hno).
    assert (Es : skipn (S (S (length pre) + length raw))
                       (pre ++ LEFT_BRACKET :: raw ++ WIDE_COLON :: value)
                 = value).
    { replace (pre ++ LEFT_BRACKET :: raw ++ WIDE_COLON :: value)
        with ((pre ++ LEFT_BRACKET :: raw) ++ WIDE_COLON :: value)
        by (now rewrite <- app_assoc).
      replace (S (length pre) + length raw)
        with (length (pre ++ LEFT_BRACKET :: raw))
        by (rewrite length_app; simpl; lia).
      apply skipn_past. }
    rewrite Es.
    pose proof (scan_close_stays_open value (S (S (length pre) + length raw)) 0
                  Hopen) as E.
    destruct (scan_close value _ 1) as [j [|d]]; [|reflexivity].
    simpl in E. congruence.
Qed.

(** Complete tags are read up to the end of the text or up to a tail that is
    malformed. *)
Lemma tags_before_tail_are_parsed (m : Z) (lower : text -> text)
      (segments : list segment) (tail : text) :
  Forall well_formed segments ->
  tail = [] \/ malformed tail ->
  _parse_auxiliary_manual m lower (segments_text segments ++ tail)
  = Some (map (fun p => make_item m lower (fst p) (snd p)) (tags_of segments)).
Proof.
  intros Hall [-> | Hbad].
  - rewrite app_nil_r. now apply segments_are_parsed.
  - apply (reachable_result _ _ _ _ _
             (segments_reached m lower segments tail Hall) 1).
    simpl. now rewrite (loop_body_over_malformed _ _ _ _ _ Hbad).
Qed.

(** ** Truncation of the values read *)

Lemma make_item_raw_type (m : Z) (lower : text -> text) (raw value : text) :
  raw_type (make_item m lower raw value) = raw.
Proof.
  unfold make_item.
  destruct (_validate_and_truncate_value m value (_standardize_type lower raw))
    as [[stored flag] warning].
  reflexivity.
Qed.

(** C7 (as amended): in a text of complete tags, which may end in a
    malformed tail, every tag is parsed under the type written, and a tag
    whose value as written is not empty and longer than [max_value_length]
    carries the truncation warning; the value stored is a prefix of the cut
    [value[:max_value_length]] of the value written, and its last character
    is one of 【, 】, ： and : only when every character of that cut is, in
    which case the cut itself is stored. *)
Theorem truncation_stops_before_delimiters
        (max_value_length : Z) (lower : text -> text) (segments : list segment)
        (tail : text) :
  Forall well_formed segments ->
  tail = [] \/ malformed tail ->
  strip (segments_text segments ++ tail) = segments_text segments ++ tail ->
  exists items,
    parse_auxiliary_info max_value_length lower
                         (Some (segments_text segments ++ tail))
    = Some items
    /\ Forall2
         (fun written tag =>
            raw_type tag = fst written
            /\ (snd written <> [] ->
                (max_value_length < Z.of_nat (length (snd written)))%Z ->
                value_warning tag <> None
                /\ (exists dropped,
                      slice_to (snd written) max_value_length
                      = item_value tag ++ dropped)
                /\ forall c,
                    last_char (item_value tag) = Some c -> is_special c = true ->
                    item_value tag = slice_to (snd written) max_value_length
                    /\ Forall (fun d => is_special d = true)
                              (slice_to (snd written) max_value_length)))
         (tags_of segments) items.
Proof.
  intros Hall Htail Hstrip.
  rewrite parse_is_manual_on_stripped, Hstrip,
    (tags_before_tail_are_parsed _ _ _ _ Hall Htail).
  eexists. split; [reflexivity|].
  generalize (tags_of segments) as written. clear.
  induction written as [|[raw value] written IH]; cbn [map]; constructor;
    [|exact IH].
  cbn [fst snd]. split; [apply make_item_raw_type|].
  intros Hne Hlen.
  destruct (truncate_over_limit max_value_length value
              (_standardize_type lower raw) Hne Hlen)
    as (stored & warning & Hout & Hprefix & Hlast).
  destruct (make_item_fields max_value_length lower raw value) as [Hv Hw].
  rewrite Hout in Hv, Hw. simpl in Hv, Hw. rewrite Hv, Hw.
  split; [discriminate|]. split; [exact Hprefix | exact Hlast].
Qed.

(** The text 【项目：AB【CD】】【缺 under a limit of three characters: the cut
    AB【 of the value of the complete tag ends in a bracket, and AB is
    stored. *)
Lemma truncation_stops_before_delimiters_witness :
  let segments := [ Tag (str "项目") (str "AB【CD】") ] in
  let tail := str "【缺" in
  exists tag,
    parse_auxiliary_info 3 ascii_lower (Some (segments_text segments ++ tail))
    = Some [tag]
    /\ raw_type tag = str "项目"
    /\ value_warning tag <> None
    /\ item_value tag = str "AB".
Proof.
  intros segments tail.
  destruct (truncation_stops_before_delimiters 3 ascii_lower segments tail)
    as (items & Hparse & Hitems).
  - unfold segments. repeat apply Forall_cons; try apply Forall_nil.
    split; [vm_compute; intuition discriminate|].
    split; [vm_compute; reflexivity|].
    split; [vm_compute; reflexivity|].
    apply closes_all_well_nested. vm_compute. reflexivity.
  - right. eexists. split; [reflexivity|]. left.
    vm_compute. intuition discriminate.
  - vm_compute. reflexivity.
  - inversion Hitems as [|written tag ws ts [Hraw Hcut] Hrest Ew Et]; subst.
    inversion Hrest; subst.
    exists tag. split; [exact Hparse|]. split; [exact Hraw|].
    destruct Hcut as (Hwarn & _ & _);
      [vm_compute; discriminate | vm_compute; reflexivity |].
    split; [exact Hwarn|].
    assert (E : Some [tag]
                = Some [make_item 3 ascii_lower (str "项目") (str "AB【CD】")]).
    { rewrite <- Hparse. vm_compute. reflexivity. }
    injection E as ->. vm_compute. reflexivity.
Defined.

(** C7, counterexample: with [max_value_length = 2], the text 【客商：：：：】
    holds one tag whose value ：：： has three characters; the tag comes out
    with the warning and with the value ：：, which ends in ：.  And with
    [max_value_length = -1] the empty value of 【客商：】 is longer than the
    limit, yet the tag comes out without the warning. *)
Lemma delimiter_only_value_ends_in_a_delimiter :
  (let tag := make_item 2 ascii_lower (str "客商") (str "：：：") in
   parse_auxiliary_info 2 ascii_lower (Some (str "【客商：：：：】")) = Some [tag]
   /\ (2 < Z.of_nat (length (str "：：：")))%Z
   /\ value_warning tag <> None
   /\ item_value tag = str "：："
   /\ last_char (item_value tag) = Some WIDE_COLON)
  /\ (let tag := make_item (-1) ascii_lower (str "客商") [] in
      parse_auxiliary_info (-1) ascii_lower (Some (str "【客商：】")) = Some [tag]
      /\ (-1 < Z.of_nat (length (item_value tag)))%Z
      /\ item_value tag = []
      /\ value_warning tag = None).
Proof.
  split.
  - repeat split; try (vm_compute; reflexivity); vm_compute; discriminate.
  - repeat split; vm_compute; reflexivity.
Qed.

(** ** Tags before a malformed tail *)



End ParserFacts.

(* ================================================================== *)
(** * Properties of the allocation *)
(* ================================================================== *)

Module PaymentFacts.

Import Float64 PaymentTracker Notions Samples.

(** ** Comparisons *)

Lemma not_positive (x : float) : ~ positive x <-> ltb zero x = false.
Proof. unfold positive. apply not_true_iff_false. Qed.

(** A float above zero is not [<= 0]. *)
Lemma positive_not_below (x : float) : positive x -> leb x zero = false.
Proof.
  unfold positive, ltb, leb, zero, SFltb, SFleb.
  destruct x as [[|]|[|]| |[|] m e]; simpl; try discriminate; reflexivity.
Qed.

Lemma py_min_positive (a b : float) :
  positive a -> positive b -> positive (py_min a b).
Proof. intros Ha Hb. unfold py_min. destruct (ltb b a); assumption. Qed.

(** [0.0 + x] is [x] for a float above zero. *)
Lemma add_zero_positive (x : float) : positive x -> add zero x = x.
Proof.
  unfold positive, ltb, add, zero, SFltb.
  destruct x as [[|]|[|]| |[|] m e]; simpl; try discriminate; reflexivity.
Qed.

(** ** Classification *)

(** The leg counts behind each voucher type. *)
Lemma leg_counts_of_type (debit_records credit_records : list Leg) :
  (_determine_voucher_type debit_records credit_records = UnknownType
   <-> (length debit_records = 0 \/ length credit_records = 0))
  /\ (_determine_voucher_type debit_records credit_records = OneCreditOneDebit
      <-> (length debit_records = 1 /\ length credit_records = 1))
  /\ (_determine_voucher_type debit_records credit_records = OneCreditMultiDebit
      <-> (1 < length debit_records /\ length credit_records = 1))
  /\ (_determine_voucher_type debit_records credit_records = MultiCreditOneDebit
      <-> (length debit_records = 1 /\ 1 < length credit_records))
  /\ (_determine_voucher_type debit_records credit_records = MultiCreditMultiDebit
      <-> (1 < length debit_records /\ 1 < length credit_records)).
Proof.
  unfold _determine_voucher_type.
  repeat split;
    destruct (length debit_records) as [|[|d]];
    destruct (length credit_records) as [|[|c]]; simpl;
    try discriminate; try reflexivity; try lia;
    intros; try discriminate; lia.
Qed.

(** C5: the voucher type depends on the two leg counts only: unknown
    (invalid) when there is no debit leg or no credit leg, and otherwise one
    of the four topologies by whether each count is one or more than one.
    The function has no other outcome; the caller turns the unknown type into
    an error. *)
Theorem voucher_type_by_leg_counts (debit_records credit_records : list Leg) :
  (_determine_voucher_type debit_records credit_records = UnknownType
   <-> (length debit_records = 0 \/ length credit_records = 0))
  /\ (_determine_voucher_type debit_records credit_records = OneCreditOneDebit
      <-> (length debit_records = 1 /\ length credit_records = 1))
  /\ (_determine_voucher_type debit_records credit_records = OneCreditMultiDebit
      <-> (1 < length debit_records /\ length credit_records = 1))
  /\ (_determine_voucher_type debit_records credit_records = MultiCreditOneDebit
      <-> (length debit_records = 1 /\ 1 < length credit_records))
  /\ (_determine_voucher_type debit_records credit_records = MultiCreditMultiDebit
      <-> (1 < length debit_records /\ 1 < length credit_records))
  /\ (forall debit_records' credit_records',
         length debit_records' = length debit_records ->
         length credit_records' = length credit_records ->
         _determine_voucher_type debit_records' credit_records'
         = _determine_voucher_type debit_records credit_records)
  /\ (forall ai_classifier,
         _determine_voucher_type debit_records credit_records = UnknownType ->
         process_records ai_classifier debit_records credit_records
         = Err UnknownVoucherType).
Proof.
  destruct (leg_counts_of_type debit_records credit_records)
    as (H0 & H1 & H2 & H3 & H4).
  repeat (split; [assumption|]). split.
  - intros debit_records' credit_records' Ed Ec.
    unfold _determine_voucher_type. now rewrite Ed, Ec.
  - intros ai_classifier H. unfold process_records. now rewrite H.
Qed.

(** Three debit legs and one credit leg. *)
Lemma voucher_type_by_leg_counts_witness :
  let leg := {| row := voucher_row "1" "管理费用" "" ""; amount := of_Z 1 |} in
  _determine_voucher_type [leg; leg; leg] [leg] = OneCreditMultiDebit.
Proof.
  intros leg.
  apply (proj2 (proj1 (proj2 (proj2
           (voucher_type_by_leg_counts [leg; leg; leg] [leg]))))).
  simpl. lia.
Defined.

(** ** Rows without an amount *)

Section Cleaning.

Variable float : text -> option Float64.float.

Lemma separate_records_from (rows : list Row) :
  forall acc,
    fold_left (separate_record float) rows acc
    = (fst acc ++ fst (separate_records float rows),
       snd acc ++ snd (separate_records float rows)).
Proof.
  unfold separate_records.
  induction rows as [|r rows IH]; intros [ds cs]; cbn [fold_left].
  - simpl. now rewrite !app_nil_r.
  - rewrite (IH (separate_record float (ds, cs) r)).
    rewrite (IH (separate_record float ([], []) r)).
    unfold separate_record.
    destruct (ltb zero (_clean_amount float (debit r)));
      [|destruct (ltb zero (_clean_amount float (credit r)))];
      simpl; now rewrite <- ?app_assoc.
Qed.

Lemma separate_records_app (rows1 rows2 : list Row) :
  separate_records float (rows1 ++ rows2)
  = (fst (separate_records float rows1) ++ fst (separate_records float rows2),
     snd (separate_records float rows1) ++ snd (separate_records float rows2)).
Proof.
  unfold separate_records at 1. rewrite fold_left_app.
  now rewrite separate_records_from.
Qed.

Lemma separate_records_one (r : Row) :
  separate_records float [r] = separate_record float ([], []) r.
Proof. reflexivity. Qed.

(** C10: a row becomes a debit leg exactly when its cleaned debit amount is
    positive, and a credit leg exactly when it is no debit leg and its cleaned
    credit amount is positive; every leg carries such a positive amount; an
    amount that is missing, empty, blank or not a number is cleaned to zero;
    and a row with no positive cleaned amount adds no leg, so that the
    voucher is processed as if the row were not there. *)
Theorem rows_without_amount_are_left_out (ai_classifier : AIClassifier) :
  (forall debit_records credit_records record,
      let debit_amount := _clean_amount float (debit record) in
      let credit_amount := _clean_amount float (credit record) in
      (positive debit_amount ->
       separate_record float (debit_records, credit_records) record
       = (debit_records ++ [ {| row := record; amount := debit_amount |} ],
          credit_records))
      /\ (~ positive debit_amount -> positive credit_amount ->
          separate_record float (debit_records, credit_records) record
          = (debit_records,
             credit_records ++ [ {| row := record; amount := credit_amount |} ]))
      /\ (~ positive debit_amount -> ~ positive credit_amount ->
          separate_record float (debit_records, credit_records) record
          = (debit_records, credit_records)))
  /\ (forall voucher_records leg,
         (In leg (fst (separate_records float voucher_records)) ->
          In (row leg) voucher_records
          /\ amount leg = _clean_amount float (debit (row leg))
          /\ positive (amount leg))
         /\ (In leg (snd (separate_records float voucher_records)) ->
             In (row leg) voucher_records
             /\ amount leg = _clean_amount float (credit (row leg))
             /\ positive (amount leg)
             /\ ~ positive (_clean_amount float (debit (row leg)))))
  /\ (_clean_amount float None = zero
      /\ _clean_amount float (Some []) = zero
      /\ (forall s, strip s = [] -> _clean_amount float (Some s) = zero)
      /\ (forall s,
             float (strip (remove_char DOUBLE_QUOTE (remove_char COMMA s))) = None ->
             _clean_amount float (Some s) = zero))
  /\ (forall before record after,
         ~ positive (_clean_amount float (debit record)) ->
         ~ positive (_clean_amount float (credit record)) ->
         separate_records float (before ++ record :: after)
         = separate_records float (before ++ after)
         /\ _process_voucher_group float ai_classifier (before ++ record :: after)
            = _process_voucher_group float ai_classifier (before ++ after)).
Proof.
  assert (Hrow : forall debit_records credit_records record,
      (positive (_clean_amount float (debit record)) ->
       separate_record float (debit_records, credit_records) record
       = (debit_records
            ++ [ {| row := record; amount := _clean_amount float (debit record) |} ],
          credit_records))
      /\ (~ positive (_clean_amount float (debit record)) ->
          positive (_clean_amount float (credit record)) ->
          separate_record float (debit_records, credit_records) record
          = (debit_records,
             credit_records
               ++ [ {| row := record; amount := _clean_amount float (credit record) |} ]))
      /\ (~ positive (_clean_amount float (debit record)) ->
          ~ positive (_clean_amount float (credit record)) ->
          separate_record float (debit_records, credit_records) record
          = (debit_records, credit_records))).
  { intros ds cs r. unfold separate_record. repeat split.
    - intros H. now rewrite H.
    - intros Hd Hc. rewrite (proj1 (not_positive _) Hd). now rewrite Hc.
    - intros Hd Hc. rewrite (proj1 (not_positive _) Hd).
      now rewrite (proj1 (not_positive _) Hc). }
  split; [exact Hrow|]. split; [|split].
  - intros rows leg. induction rows as [|r rows IH] using rev_ind.
    + split; intros [].
    + rewrite separate_records_app, separate_records_one. simpl fst; simpl snd.
      unfold separate_record.
      destruct (ltb zero (_clean_amount float (debit r))) eqn:Ed;
        [|destruct (ltb zero (_clean_amount float (credit r))) eqn:Ec];
        simpl; rewrite ?app_nil_r; split; intros Hin;
        try (apply in_app_or in Hin as [Hin | [<- | []]]);
        try (destruct IH as [IHd IHc];
             first [ destruct (IHd Hin) as (? & ? & ?)
                   | destruct (IHc Hin) as (? & ? & ? & ?) ];
             repeat split; try assumption; apply in_or_app; now left).
      * simpl. repeat split; [apply in_or_app; right; now left|].
        exact Ed.
      * simpl. repeat split; [apply in_or_app; right; now left | |].
        -- exact Ec.
        -- now apply not_positive.
  - repeat split.
    + intros s Hs. unfold _clean_amount. destruct s; [reflexivity|].
      now rewrite Hs.
    + intros s Hs. unfold _clean_amount. rewrite Hs.
      destruct s; [reflexivity|]. destruct (strip (c :: s)); reflexivity.
  - intros before r after Hd Hc.
    assert (E : separate_records float (before ++ r :: after)
                = separate_records float (before ++ after)).
    { rewrite !separate_records_app.
      change (r :: after) with ([r] ++ after).
      rewrite separate_records_app, separate_records_one.
      rewrite (proj2 (proj2 (Hrow [] [] r)) Hd Hc). reflexivity. }
    split; [exact E|]. unfold _process_voucher_group. now rewrite E.
Qed.

(** The legs of a voucher carry positive amounts. *)
Lemma separate_records_positive (rows : list Row) :
  Forall (fun d => positive (amount d)) (fst (separate_records float rows))
  /\ Forall (fun c => positive (amount c)) (snd (separate_records float rows)).
Proof.
  induction rows as [|r rows [IHd IHc]] using rev_ind.
  - split; constructor.
  - rewrite separate_records_app, separate_records_one. cbn [fst snd].
    unfold separate_record.
    destruct (ltb zero (_clean_amount float (debit r))) eqn:Ed;
      [|destruct (ltb zero (_clean_amount float (credit r))) eqn:Ec];
      cbn [fst snd]; rewrite ?app_nil_r; split; try assumption;
      apply Forall_app; (split; [assumption|]);
      constructor; try constructor; assumption.
Qed.

End Cleaning.

(** A row with the amounts 0.00 and abc between a debit row and a credit row. *)
Lemma rows_without_amount_are_left_out_witness :
  let empty_row := voucher_row "9" "其他应付款" "0.00" "abc" in
  _process_voucher_group decimal_float answering_classifier
    ([voucher_row "1" "管理费用" "350" ""]
       ++ empty_row :: [voucher_row "2" "银行存款" "" "300"])
  = _process_voucher_group decimal_float answering_classifier
      ([voucher_row "1" "管理费用" "350" ""]
         ++ [voucher_row "2" "银行存款" "" "300"]).
Proof.
  intros empty_row.
  apply (proj2 (proj2 (proj2
           (rows_without_amount_are_left_out decimal_float answering_classifier)))
           _ empty_row _).
  - vm_compute. discriminate.
  - vm_compute. discriminate.
Defined.

(** ** Debit entries *)

Section Allocation.

Variable ai_classifier : AIClassifier.

Lemma created_entry (debit_record : Leg) (a : float) (e : DebitEntry) :
  _create_debit_entry ai_classifier debit_record a = Ok e ->
  entry_amount e = a
  /\ entry_account_name e = account_name (row debit_record)
  /\ entry_summary e = summary (row debit_record).
Proof.
  unfold _create_debit_entry.
  destruct (classify_payment_purpose _ _ _ _); [|discriminate].
  destruct (classify_cash_flow_item _ _ _ _); [|discriminate].
  intros H. injection H as <-. repeat split.
Qed.

Lemma entry_is_created (debit_record : Leg) (a : float) :
  answers ai_classifier debit_record ->
  exists e, _create_debit_entry ai_classifier debit_record a = Ok e.
Proof.
  unfold answers, _create_debit_entry. intros [Hp Hc].
  destruct (classify_payment_purpose _ _ _ _); [|congruence].
  destruct (classify_cash_flow_item _ _ _ _); [|congruence].
  eexists. reflexivity.
Qed.

Lemma created_when_answered (debit_record : Leg) (a : float) (e : DebitEntry) :
  _create_debit_entry ai_classifier debit_record a = Ok e ->
  answers ai_classifier debit_record.
Proof.
  unfold answers, _create_debit_entry.
  destruct (classify_payment_purpose _ _ _ _); [|discriminate].
  destruct (classify_cash_flow_item _ _ _ _); [|discriminate].
  intros _. split; discriminate.
Qed.

Lemma create_raises (debit_record : Leg) (a : float) (e : exn) :
  _create_debit_entry ai_classifier debit_record a = Err e ->
  e = ClassifierError /\ ~ answers ai_classifier debit_record.
Proof.
  intros H. split.
  - revert H. unfold _create_debit_entry.
    destruct (classify_payment_purpose _ _ _ _);
      [destruct (classify_cash_flow_item _ _ _ _)|]; congruence.
  - intros Hans. destruct (entry_is_created debit_record a Hans) as [x Hx].
    congruence.
Qed.

(** ** One credit, many debits *)



(** ** Many credits, one debit *)

(** The loop adds one record for every credit leg that the greedy rule gives
    a positive share of the debit leg. *)
Lemma allocate_one_debit_greedy (debit_record : Leg) (total : nat)
      (credit_records : list Leg) :
  forall i remaining_debit payment_records out,
    allocate_one_debit ai_classifier debit_record total credit_records i
                       remaining_debit payment_records
    = Ok out ->
    exists new,
      out = payment_records ++ new
      /\ Forall2 (one_debit_record debit_record total)
           (positive_credit_shares i credit_records
              (greedy_allocation (map amount credit_records) remaining_debit))
           new.
Proof.
  induction credit_records as [|c rest IH]; intros i rem acc out H.
  - cbn in H. injection H as <-. exists []. split; [now rewrite app_nil_r|].
    constructor.
  - cbn [allocate_one_debit] in H.
    unfold positive_credit_shares.
    cbn [map greedy_allocation length seq combine filter snd].
    set (given := match map amount rest with
                  | [] => rem
                  | _ :: _ => py_min (amount c) rem
                  end).
    assert (Eg : match rest with
                 | [] => rem
                 | _ :: _ => py_min (amount c) rem
                 end = given).
    { unfold given. destruct rest; reflexivity. }
    rewrite Eg in H.
    fold (positive_credit_shares (S i) rest
            (greedy_allocation (map amount rest)
               (if ltb zero given then sub rem given else rem))).
    destruct (ltb zero given) eqn:T.
    + destruct (_create_debit_entry ai_classifier debit_record given)
        as [e|x] eqn:C; cbn [bind] in H; [|discriminate].
      apply IH in H as (new & -> & Hnew).
      eexists (_ :: new). split; [now rewrite <- app_assoc|].
      constructor; [|exact Hnew].
      apply created_entry in C as (Ha & Hn & Hs).
      unfold one_debit_record.
      cbn [payment_id original_voucher credit_side voucher_type entry_index
           entry_count debit_side check_info].
      rewrite Ha. repeat split.
      exists e. split; [reflexivity|]. repeat split; assumption.
    + exact (IH _ _ _ _ H).
Qed.

(** ** What the loops may raise *)




Lemma allocate_one_debit_returns (debit_record : Leg) (total : nat)
      (credit_records : list Leg) :
  answers ai_classifier debit_record ->
  forall i remaining_debit payment_records,
  exists out,
    allocate_one_debit ai_classifier debit_record total credit_records i
                       remaining_debit payment_records = Ok out.
Proof.
  intros Hd.
  induction credit_records as [|c rest IH]; intros i rem acc; [now exists acc|].
  cbn [allocate_one_debit].
  destruct (ltb zero _); [|apply IH].
  destruct (entry_is_created debit_record
              match rest with [] => rem | _ :: _ => py_min (amount c) rem end Hd)
    as [e C].
  rewrite C. cbn [bind]. apply IH.
Qed.

End Allocation.



(** A remainder left by rounding is a share like any other: with a credit of
    891.41 against debits of 374.96, 472.05, 44.40 and 109.69 the first three
    legs take their amounts and leave 3.552713678800501e-14 of the credit,
    which the last leg receives as its fragment. *)
Example a_rounding_remainder_is_a_fragment :
  exists payment_record,
    process_records answering_classifier
      (map debit_leg [ voucher_row "1" "管理费用" "374.96" "";
                       voucher_row "2" "销售费用" "472.05" "";
                       voucher_row "3" "财务费用" "44.40" "";
                       voucher_row "4" "制造费用" "109.69" "" ])
      [credit_leg (voucher_row "5" "银行存款" "" "891.41")]
    = Ok [payment_record]
    /\ entry_amounts (debit_side payment_record)
       = [ fl "374.96"; fl "472.05"; fl "44.4";
           fl "0.00000000000003552713678800501" ].
Proof.
  eexists. split; [vm_compute; reflexivity|]. vm_compute. reflexivity.
Qed.

(** ** The balance check *)

(** C2, at vouchers on which the code fails it.  The voucher with one credit
    of 300 and debits of 120, 80 and 150, whose totals differ by 50, is not
    refused: it gives one record with the fragments 120, 80 and 100, marked
    平衡.  With the same legs and the credit split into 100 and 200 the
    voucher is refused as unbalanced.  The voucher with one credit of 300 and
    one debit of 350 gives one record too, marked 不平衡. *)
Theorem unbalanced_vouchers_are_allocated :
  (let '(debit_records, credit_records) :=
     separate_records decimal_float unbalanced_one_to_three in
   map amount debit_records = [fl "120"; fl "80"; fl "150"]
   /\ map amount credit_records = [fl "300"]
   /\ ltb tolerance (abs (sub (py_sum (map amount debit_records))
                              (py_sum (map amount credit_records)))) = true)
  /\ (exists r,
        _process_voucher_group decimal_float answering_classifier
                               unbalanced_one_to_three = Ok [r]
        /\ entry_amounts (debit_side r) = [fl "120"; fl "80"; fl "100"]
        /\ credit_amount (credit_side r) = fl "300"
        /\ balanced (check_info r) = true)
  /\ _process_voucher_group decimal_float answering_classifier
       [ voucher_row "1" "管理费用" "120" "";
         voucher_row "2" "销售费用" "80" "";
         voucher_row "3" "财务费用" "150" "";
         voucher_row "4" "银行存款" "" "100";
         voucher_row "5" "银行存款" "" "200" ]
     = Err (Unbalanced (fl "300") (fl "350"))
  /\ (exists r,
        _process_voucher_group decimal_float answering_classifier
                               unbalanced_one_to_one = Ok [r]
        /\ entry_amounts (debit_side r) = [fl "350"]
        /\ credit_amount (credit_side r) = fl "300"
        /\ balanced (check_info r) = false).
Proof.
  split; [|split; [|split]].
  - vm_compute. repeat split.
  - eexists. split; [vm_compute; reflexivity|].
    repeat split; vm_compute; reflexivity.
  - vm_compute. reflexivity.
  - eexists. split; [vm_compute; reflexivity|].
    repeat split; vm_compute; reflexivity.
Qed.

(** ** Many credits, many debits *)

(** The legs of the voucher with two debits and two credits of 100. *)
Lemma balanced_two_by_two_legs :
  separate_records decimal_float balanced_two_by_two
  = (map debit_leg [ voucher_row "1" "管理费用" "100" "";
                     voucher_row "2" "销售费用" "100" "" ],
     map credit_leg [ voucher_row "3" "银行存款" "" "100";
                      voucher_row "4" "银行存款" "" "100" ]).
Proof. vm_compute. reflexivity. Qed.

(** C1, at a voucher on which the code fails it: two debits of 100 and two
    credits of 100 are processed without error; the first credit takes the
    first debit whole and the inner loop stops before it reaches the second
    debit, which is therefore not kept for the second credit.  The second
    record has no fragment and is marked 不平衡; the fragments of the voucher
    sum to 100, its credits to 200. *)
Theorem balanced_two_by_two_loses_a_debit :
  let '(debit_records, credit_records) :=
    separate_records decimal_float balanced_two_by_two in
  map amount debit_records = [fl "100"; fl "100"]
  /\ map amount credit_records = [fl "100"; fl "100"]
  /\ leb (abs (sub (py_sum (map amount debit_records))
                   (py_sum (map amount credit_records)))) tolerance = true
  /\ exists r1 r2,
      _process_voucher_group decimal_float answering_classifier balanced_two_by_two
      = Ok [r1; r2]
      /\ fragments [r1; r2] = [ [(str "管理费用", fl "100")]; [] ]
      /\ balanced (check_info r1) = true
      /\ balanced (check_info r2) = false
      /\ fragment_total [r1; r2] = fl "100"
      /\ py_sum (map amount credit_records) = fl "200"
      /\ leb (abs (sub (fragment_total [r1; r2])
                       (py_sum (map amount credit_records)))) tolerance = false.
Proof.
  rewrite balanced_two_by_two_legs.
  split; [vm_compute; reflexivity|]. split; [vm_compute; reflexivity|].
  split; [vm_compute; reflexivity|].
  eexists _, _. split; [vm_compute; reflexivity|].
  repeat split; vm_compute; reflexivity.
Qed.

(** C3, at two vouchers on which the code fails it.  With debits of 100 and
    200 and credits of 50 and 250: the first credit takes 50 of the first
    debit, whose remainder of 50 is kept for the next credit, while the
    second debit, not reached, is dropped from the pool; the second credit
    then takes its whole 250 from what is left of the first debit.  The first
    debit is consumed for 300 and the second for nothing.  With two debits of
    100 and two credits of 100 the fragments do not even sum to the credits. *)
Theorem unreached_debits_leave_the_pool :
  let first := voucher_row "1" "管理费用" "100" "" in
  let second := voucher_row "2" "销售费用" "200" "" in
  let debit_records := map debit_leg [first; second] in
  let credit_records :=
    map credit_leg [ voucher_row "3" "银行存款" "" "50";
                     voucher_row "4" "银行存款" "" "250" ] in
  let balanced_debits :=
    map debit_leg [ voucher_row "1" "管理费用" "100" "";
                    voucher_row "2" "销售费用" "100" "" ] in
  let balanced_credits :=
    map credit_leg [ voucher_row "3" "银行存款" "" "100";
                     voucher_row "4" "银行存款" "" "100" ] in
  (exists e,
      consume_debits answering_classifier debit_records (fl "50") [] []
      = Ok ([e], [ {| row := first; amount := fl "50" |} ])
      /\ entry_account_name e = str "管理费用" /\ entry_amount e = fl "50")
  /\ (exists r1 r2,
        _process_multi_credit_multi_debit answering_classifier
                                          debit_records credit_records
        = Ok [r1; r2]
        /\ fragments [r1; r2]
           = [ [(str "管理费用", fl "50")]; [(str "管理费用", fl "250")] ])
  /\ (exists r1 r2,
        _process_multi_credit_multi_debit answering_classifier
                                          balanced_debits balanced_credits
        = Ok [r1; r2]
        /\ fragments [r1; r2] = [ [(str "管理费用", fl "100")]; [] ]).
Proof.
  cbv zeta. split; [|split].
  - eexists. split; [vm_compute; reflexivity|].
    split; vm_compute; reflexivity.
  - eexists _, _. split; [vm_compute; reflexivity|]. vm_compute. reflexivity.
  - eexists _, _. split; [vm_compute; reflexivity|]. vm_compute. reflexivity.
Qed.

(** ** The examples of the specification *)

(** A credit of 1000.50 against a debit of 1000.50 gives one record, marked
    平衡. *)
Example one_to_one_example :
  exists r,
    _process_voucher_group decimal_float answering_classifier
      [ voucher_row "1" "管理费用" "1000.50" "";
        voucher_row "2" "银行存款" "" "1000.50" ]
    = Ok [r]
    /\ voucher_type r = OneCreditOneDebit
    /\ credit_account_name (credit_side r) = str "银行存款"
    /\ fragments [r] = [ [(str "管理费用", fl "1000.5")] ]
    /\ balanced (check_info r) = true.
Proof.
  eexists. split; [vm_compute; reflexivity|].
  repeat split; vm_compute; reflexivity.
Qed.

(** When the classifier raises, the voucher gives no record. *)
Example classifier_failure_is_raised :
  _process_voucher_group decimal_float failing_classifier unbalanced_one_to_one
  = Err ClassifierError.
Proof. vm_compute. reflexivity. Qed.

(** The literal [0.01] is the float 0x1.47ae147ae147bp-7. *)
Example tolerance_is_the_nearest_float :
  tolerance = S754_finite false 5764607523034235 (-59).
Proof. vm_compute. reflexivity. Qed.

(** Amounts that differ by a cent in their decimal writing, 0.35 and 0.34,
    differ by less than the float [0.01]: the record is marked 平衡. *)
Example a_cent_apart_is_balanced :
  balance_state (fl "0.35") (fl "0.34") = true.
Proof. vm_compute. reflexivity. Qed.

End PaymentFacts.

(* ================================================================== *)
(** * Further properties of the parser *)
(* ================================================================== *)

Module ParserMoreFacts.

Import AuxiliaryParser Notions Samples ParserFacts.

(** ** Length check and truncation *)

Lemma slice_to_length (value : text) (m : Z) :
  (0 <= m)%Z -> (Z.of_nat (length (slice_to value m)) <= m)%Z.
Proof.
  intros Hm. unfold slice_to.
  rewrite (proj2 (Z.ltb_ge m 0)) by lia.
  pose proof (firstn_le_length (Z.to_nat m) value). text_lia.
Qed.

Lemma untouched_when_short (m : Z) (value ty : text) :
  validate_item_value_length m value = (true, None)
  <-> _validate_and_truncate_value m value ty = (value, false, None).
Proof.
  unfold validate_item_value_length, _validate_and_truncate_value.
  destruct value as [|c value]; [tauto|].
  destruct (Z.leb_spec (Z.of_nat (length (c :: value))) m) as [Hle|Hgt].
  - rewrite (proj2 (Z.ltb_ge _ _)) by lia. tauto.
  - rewrite (proj2 (Z.ltb_lt _ _)) by lia. split; discriminate.
Qed.

Lemma stored_value_fits (m : Z) (value ty : text) :
  (0 <= m)%Z ->
  (Z.of_nat (length (fst (fst (_validate_and_truncate_value m value ty)))) <= m)%Z.
Proof.
  intros Hm.
  destruct value as [|c value]; [simpl; lia|].
  destruct (Z.leb_spec (Z.of_nat (length (c :: value))) m) as [Hle|Hgt].
  - unfold _validate_and_truncate_value.
    rewrite (proj2 (Z.leb_le _ _)) by lia. simpl fst. lia.
  - destruct (truncate_over_limit m (c :: value) ty)
      as (stored & w & E & [dropped Hd] & _); [discriminate | lia |].
    rewrite E. simpl fst.
    pose proof (slice_to_length (c :: value) m Hm) as L.
    rewrite Hd, length_app in L. lia.
Qed.

(** With a non-negative limit, the value stored in a parsed tag is never
    longer than the limit: it passes [validate_item_value_length], and
    truncating it again changes nothing. *)
Theorem parsed_values_fit_the_limit
        (max_value_length : Z) (lower : text -> text)
        (t : option text) (items : list Item) :
  (0 <= max_value_length)%Z ->
  parse_auxiliary_info max_value_length lower t = Some items ->
  Forall (fun tag =>
            (Z.of_nat (length (item_value tag)) <= max_value_length)%Z
            /\ validate_item_value_length max_value_length (item_value tag)
               = (true, None)
            /\ _validate_and_truncate_value max_value_length (item_value tag)
                                            (item_type tag)
               = (item_value tag, false, None))
         items.
Proof.
  intros Hm. apply parse_items. intros raw value.
  destruct (make_item_fields max_value_length lower raw value) as [Hv _].
  pose proof (stored_value_fits max_value_length value
                (_standardize_type lower raw) Hm) as Hfit.
  rewrite <- Hv in Hfit.
  assert (Hok : validate_item_value_length max_value_length
                  (item_value (make_item max_value_length lower raw value))
                = (true, None)).
  { unfold validate_item_value_length.
    destruct (item_value _) as [|c v]; [reflexivity|].
    now rewrite (proj2 (Z.ltb_ge _ _)) by exact Hfit. }
  split; [exact Hfit|]. split; [exact Hok|].
  now apply untouched_when_short.
Qed.

(** The text 【项目：项目名称【2022】编号001】 under a limit of ten characters. *)
Lemma parsed_values_fit_the_limit_witness :
  Forall (fun tag =>
            (Z.of_nat (length (item_value tag)) <= 10)%Z
            /\ validate_item_value_length 10 (item_value tag) = (true, None)
            /\ _validate_and_truncate_value 10 (item_value tag) (item_type tag)
               = (item_value tag, false, None))
         [make_item 10 ascii_lower (str "项目") (str "项目名称【2022】编号001")].
Proof.
  apply (parsed_values_fit_the_limit 10 ascii_lower
           (Some (str "【项目：项目名称【2022】编号001】"))).
  - lia.
  - vm_compute. reflexivity.
Defined.

(** ** Display types *)

Lemma reverse_mapping_inverts :
  forallb (fun vk => match dict_get type_mapping (snd vk) with
                     | Some v => Text.eqb v (fst vk)
                     | None => false
                     end)
          reverse_mapping = true.
Proof. vm_compute. reflexivity. Qed.

Lemma displayed_alias (canonical alias : text) :
  dict_get reverse_mapping canonical = Some alias ->
  dict_get type_mapping alias = Some canonical.
Proof.
  intros H. apply dict_get_sound in H.
  pose proof (proj1 (forallb_forall _ _) reverse_mapping_inverts _ H) as E.
  clear H. cbv beta in E. cbn [fst snd] in E.
  destruct (dict_get type_mapping alias) as [v|]; [|discriminate].
  apply text_eqb_eq in E. rewrite E. reflexivity.
Qed.

(** The display type of a parsed tag stands for the canonical type of the
    tag: standardizing the display type gives the tag's [item_type] back. *)
Theorem display_type_names_the_item_type
        (max_value_length : Z) (lower : text -> text)
        (t : option text) (items : list Item) :
  parse_auxiliary_info max_value_length lower t = Some items ->
  Forall (fun tag => _standardize_type lower (display_type tag) = item_type tag)
         items.
Proof.
  apply parse_items. intros raw value. unfold make_item.
  destruct (_validate_and_truncate_value _ _ _) as [[stored flag] w].
  cbn [display_type item_type].
  destruct (dict_get reverse_mapping (_standardize_type lower raw))
    as [alias|] eqn:R; [|reflexivity].
  apply displayed_alias in R. unfold _standardize_type at 1.
  rewrite R. reflexivity.
Qed.

(** A tag of type 外部流水号, displayed as 托外流水号. *)
Lemma display_type_names_the_item_type_witness :
  Forall (fun tag => _standardize_type ascii_lower (display_type tag)
                     = item_type tag)
         [make_item 10000 ascii_lower (str "外部流水号") (str "A-1")].
Proof.
  apply (display_type_names_the_item_type 10000 ascii_lower
           (Some (str "【外部流水号：A-1】"))).
  vm_compute. reflexivity.
Defined.

(** ** One pass of the loop, read backwards *)

Lemma scan_colon_found (rest : text) :
  forall i c j,
    scan_colon rest i = (Some c, j) ->
    j = S c /\ i <= c /\ c < i + length rest
    /\ nth (c - i) rest 0%N = WIDE_COLON
    /\ forall k, k < c - i -> nth k rest 0%N <> WIDE_COLON.
Proof.
  induction rest as [|a rest IH]; intros i c j H; simpl in H; [discriminate|].
  destruct (a =? WIDE_COLON)%N eqn:E.
  - injection H as <- <-. apply N.eqb_eq in E.
    rewrite Nat.sub_diag. simpl. repeat split; try lia; try exact E.
  - apply IH in H as (Hj & Hi & Hc & Hn & Hb). apply N.eqb_neq in E.
    replace (c - i) with (S (c - S i)) by lia. simpl.
    repeat split; try lia; try assumption.
    intros [|k] Hk; [exact E|]. apply Hb. lia.
Qed.

Lemma scan_close_bounds (rest : text) :
  forall i depth j depth',
    scan_close rest i depth = (j, depth') ->
    i <= j /\ j <= i + length rest
    /\ (0 < depth -> depth' = 0 -> i < j).
Proof.
  induction rest as [|a rest IH]; intros i [|below] j d' H; simpl in H;
    try (injection H as <- <-; simpl; repeat split; lia).
  destruct (a =? LEFT_BRACKET)%N; [|destruct (a =? RIGHT_BRACKET)%N];
    apply IH in H as (H1 & H2 & _); simpl; repeat split; lia.
Qed.

(** What a pass that goes on has read: one character that opens no tag, or
    one whole tag from its opening bracket on. *)
Lemma loop_body_inversion (m : Z) (lower : text -> text) (t : text)
      (i i' : nat) (items items' : list Item) :
  loop_body m lower t i items = Continue i' items' ->
  i < length t
  /\ ((char_at t i <> LEFT_BRACKET /\ i' = S i /\ items' = items)
      \/ (char_at t i = LEFT_BRACKET
          /\ exists c,
              first_colon t i c /\ S c < i' /\ i' <= length t
              /\ items' = items
                            ++ [make_item m lower
                                  (strip (slice t (S i) c))
                                  (strip (slice t (S c) (i' - 1)))])).
Proof.
  unfold loop_body.
  destruct (Nat.ltb_spec i (length t)) as [Hi|Hi]; [|discriminate].
  destruct (char_at t i =? LEFT_BRACKET)%N eqn:E.
  - apply N.eqb_eq in E.
    destruct (scan_colon (skipn (S i) t) (S i)) as [[c|] j] eqn:Sc;
      [|discriminate].
    apply scan_colon_found in Sc as (-> & Hic & Hc & Hn & Hb).
    rewrite length_skipn in Hc.
    destruct (scan_close (skipn (S c) t) (S c) 1) as [j' [|d]] eqn:Sb;
      [|discriminate].
    apply scan_close_bounds in Sb as (Hj1 & Hj2 & Hj3).
    rewrite length_skipn in Hj2.
    intros H. injection H as <- <-.
    split; [exact Hi|]. right. split; [exact E|].
    exists c. split; [|split; [|split]].
    + unfold first_colon, char_at. split; [lia|]. split.
      * rewrite nth_skipn in Hn. now replace (S i + (c - S i)) with c in Hn by lia.
      * intros k Hk. specialize (Hb (k - S i)).
        rewrite nth_skipn in Hb.
        replace (S i + (k - S i)) with k in Hb by lia. apply Hb. lia.
    + specialize (Hj3 ltac:(lia) eq_refl). lia.
    + lia.
    + reflexivity.
  - apply N.eqb_neq in E. intros H. injection H as <- <-.
    split; [exact Hi|]. left. repeat split. exact E.
Qed.

(** ** Items and opening brackets *)

Lemma opening_skipn_le (t : text) :
  forall i i', i <= i' -> opening (skipn i' t) <= opening (skipn i t).
Proof.
  unfold opening.
  induction t as [|a t IH]; intros i i' H.
  - now rewrite !skipn_nil.
  - destruct i as [|i]; destruct i' as [|i']; try lia.
    + rewrite skipn_cons, skipn_O.
      specialize (IH 0 i' ltac:(lia)). rewrite skipn_O in IH.
      destruct (N.eq_dec a LEFT_BRACKET) as [Ea|Ea].
      * rewrite count_occ_cons_eq by exact Ea. text_lia.
      * rewrite count_occ_cons_neq by exact Ea. text_lia.
    + rewrite !skipn_cons. apply IH. lia.
Qed.

Lemma opening_at_bracket (t : text) (i : nat) :
  i < length t -> char_at t i = LEFT_BRACKET ->
  opening (skipn i t) = S (opening (skipn (S i) t)).
Proof.
  intros Hi E. rewrite (skipn_char_at t i Hi). unfold opening.
  now rewrite count_occ_cons_eq by exact E.
Qed.

(** Every item the loop adds is paid for by an opening bracket still ahead. *)
Lemma run_loop_opening_bound (m : Z) (lower : text -> text) (t : text) :
  forall fuel i items r,
    run_loop m lower fuel t i items = Some r ->
    length r <= length items + opening (skipn i t).
Proof.
  induction fuel as [|fuel IH]; intros i items r H; [discriminate|].
  simpl in H.
  destruct (loop_body m lower t i items) as [i' items'|items'] eqn:B.
  - apply IH in H.
    apply loop_body_inversion in B
      as (Hi & [(Hc & -> & ->) | (Hc & c & (Hr & _) & Hlt & Hle & ->)]).
    + pose proof (opening_skipn_le t i (S i) ltac:(lia)). lia.
    + rewrite length_app in H. simpl in H.
      rewrite (opening_at_bracket t i Hi Hc).
      pose proof (opening_skipn_le t (S i) i' ltac:(lia)). lia.
  - destruct (loop_body_cases m lower t i items)
      as [E | [(j & _ & E) | (j & raw & value & _ & E)]];
      rewrite E in B; try discriminate.
    injection B as <-. injection H as <-. lia.
Qed.

Lemma contains_one (c : codepoint) (s : text) :
  contains [c] s = (0 <? count_occ N.eq_dec s c).
Proof.
  induction s as [|a s IH]; [reflexivity|].
  cbn [contains starts_with]. rewrite IH.
  destruct (N.eq_dec a c) as [E|E].
  - rewrite count_occ_cons_eq by exact E. subst a.
    rewrite N.eqb_refl. destruct s; reflexivity.
  - rewrite count_occ_cons_neq by exact E.
    assert ((c =? a)%N = false) as -> by (apply N.eqb_neq; congruence).
    reflexivity.
Qed.

(** [validate_auxiliary_format] never counts more items than opening
    brackets, and it accepts a text exactly when the text has as many closing
    as opening brackets and every opening bracket starts a parsed item: a
    text whose values hold brackets of their own is reported as invalid,
    although it is parsed. *)
Theorem format_check_accepts_only_flat_tags
        (max_value_length : Z) (lower : text -> text) (t : text) :
  exists items ok errors,
    parse_auxiliary_info max_value_length lower (Some t) = Some items
    /\ validate_auxiliary_format max_value_length lower (Some t)
       = Some (ok, errors)
    /\ length items <= opening (strip t)
    /\ (ok = true <-> errors = [])
    /\ (ok = true
        <-> closing (strip t) = opening (strip t)
            /\ length items = opening (strip t)).
Proof.
  rewrite parse_is_manual_on_stripped.
  destruct (run_loop_terminates max_value_length lower (strip t)
              (S (length (strip t))) 0 []) as [items Hitems]; [lia|].
  pose proof (run_loop_opening_bound _ _ _ _ _ _ _ Hitems) as Hbound.
  rewrite skipn_O in Hbound. simpl in Hbound.
  fold (_parse_auxiliary_manual max_value_length lower (strip t)) in Hitems.
  exists items.
  destruct t as [|a t].
  - simpl. exists true, []. unfold _parse_auxiliary_manual in Hitems.
    simpl in Hitems. injection Hitems as <-.
    repeat split; reflexivity.
  - unfold validate_auxiliary_format. rewrite Hitems.
    rewrite !contains_one.
    fold (opening (strip (a :: t))). fold (closing (strip (a :: t))).
    set (o := opening (strip (a :: t))) in *.
    set (c := closing (strip (a :: t))) in *.
    eexists _, _. split; [reflexivity|]. split; [reflexivity|].
    split; [exact Hbound|].
    destruct (Nat.ltb_spec 0 o); destruct (Nat.ltb_spec 0 c);
      destruct (Nat.eqb_spec o c); destruct (Nat.ltb_spec (length items) o);
      simpl; repeat split; intros; try discriminate; try lia;
        try (exfalso; lia); try reflexivity;
        match goal with H : _ /\ _ |- _ => destruct H; exfalso; lia end.
Qed.

(** ** Reading back what was written *)

(** A text with no blank at either end that is made of complete tags, with
    any characters other than 【 between them, is parsed into exactly these
    tags, in their order; the values may hold well nested brackets of their
    own. *)
Theorem written_tags_are_read_back
        (max_value_length : Z) (lower : text -> text) (segments : list segment) :
  Forall well_formed segments ->
  strip (segments_text segments) = segments_text segments ->
  parse_auxiliary_info max_value_length lower (Some (segments_text segments))
  = Some (map (fun p => make_item max_value_length lower (fst p) (snd p))
              (tags_of segments)).
Proof.
  intros Hall Hstrip.
  rewrite parse_is_manual_on_stripped, Hstrip.
  now apply segments_are_parsed.
Qed.

(** Two tags, the second with brackets in its value, and a comma between. *)
Lemma written_tags_are_read_back_witness :
  let segments := [ Tag (str "客商") (str "中国电信");
                    Other 0x2C%N;
                    Tag (str "托外流水号") (str "粤和立【2022】施工【0017】号") ] in
  parse_auxiliary_info 10000 ascii_lower (Some (segments_text segments))
  = Some (map (fun p => make_item 10000 ascii_lower (fst p) (snd p))
              (tags_of segments)).
Proof.
  intros segments.
  apply (written_tags_are_read_back 10000 ascii_lower segments).
  - unfold segments. repeat apply Forall_cons; try apply Forall_nil.
    + split; [vm_compute; intuition discriminate|].
      split; [vm_compute; reflexivity|].
      split; [vm_compute; reflexivity|].
      apply closes_all_well_nested. vm_compute. reflexivity.
    + vm_compute. discriminate.
    + split; [vm_compute; intuition discriminate|].
      split; [vm_compute; reflexivity|].
      split; [vm_compute; reflexivity|].
      apply closes_all_well_nested. vm_compute. reflexivity.
  - vm_compute. reflexivity.
Defined.

(** ** Tags with brackets in their values and the format check *)

Lemma opening_app (a b : text) : opening (a ++ b) = opening a + opening b.
Proof. unfold opening. apply count_occ_app. Qed.

Lemma opening_cons (c : codepoint) (a : text) :
  opening (c :: a) = (if (c =? LEFT_BRACKET)%N then 1 else 0) + opening a.
Proof.
  unfold opening. destruct (c =? LEFT_BRACKET)%N eqn:E.
  - apply N.eqb_eq in E. now rewrite count_occ_cons_eq.
  - apply N.eqb_neq in E. now rewrite count_occ_cons_neq.
Qed.

Lemma opening_positive (v : text) : In LEFT_BRACKET v -> 0 < opening v.
Proof. intros H. unfold opening. now apply count_occ_In. Qed.

Lemma tags_below_opening (segments : list segment) :
  length (tags_of segments) <= opening (segments_text segments).
Proof.
  induction segments as [|[raw value|c] segments IH];
    unfold segments_text in *; cbn [flat_map tags_of segment_text length].
  - lia.
  - rewrite opening_app, opening_cons, N.eqb_refl. lia.
  - rewrite opening_app. lia.
Qed.

Lemma nested_tags_below_opening (segments : list segment) :
  Exists nests segments ->
  length (tags_of segments) < opening (segments_text segments).
Proof.
  induction 1 as [[raw value|c] segments Hn|seg segments Hn IH];
    unfold segments_text in *; cbn [flat_map]; rewrite opening_app.
  - pose proof (tags_below_opening segments) as Hle.
    unfold segments_text in Hle.
    cbn [tags_of segment_text length].
    rewrite opening_cons, N.eqb_refl, opening_app, opening_cons, opening_app.
    apply opening_positive in Hn. lia.
  - destruct Hn.
  - destruct seg as [raw value|c]; cbn [tags_of segment_text length].
    + rewrite opening_cons, N.eqb_refl. lia.
    + lia.
Qed.

(** A text of complete tags of which one holds an opening bracket in its
    value is parsed into all its tags, and yet the format check reports it as
    invalid, with the message that fewer items than opening brackets were
    found. *)
Theorem nested_values_fail_the_format_check
        (max_value_length : Z) (lower : text -> text) (segments : list segment) :
  Forall well_formed segments ->
  strip (segments_text segments) = segments_text segments ->
  Exists nests segments ->
  parse_auxiliary_info max_value_length lower (Some (segments_text segments))
  = Some (map (fun p => make_item max_value_length lower (fst p) (snd p))
              (tags_of segments))
  /\ exists errors,
      validate_auxiliary_format max_value_length lower
                                (Some (segments_text segments))
      = Some (false, errors)
      /\ In (ParseShort (length (tags_of segments))
                        (opening (segments_text segments))) errors.
Proof.
  intros Hall Hstrip Hnest.
  pose proof (segments_are_parsed max_value_length lower segments Hall) as Hparse.
  pose proof (nested_tags_below_opening segments Hnest) as Hlt.
  split.
  - rewrite parse_is_manual_on_stripped, Hstrip. exact Hparse.
  - unfold validate_auxiliary_format.
    destruct (segments_text segments) as [|a t] eqn:Et.
    + unfold opening in Hlt. simpl in Hlt. lia.
    + rewrite Hstrip, Hparse, length_map.
      fold (opening (a :: t)).
      rewrite (proj2 (Nat.ltb_lt _ _) Hlt).
      match goal with
      | |- context [?e ++ [ParseShort ?n ?o]] => set (before := e)
      end.
      exists (before ++ [ParseShort (length (tags_of segments)) (opening (a :: t))]).
      split.
      * destruct before; reflexivity.
      * apply in_or_app. right. left. reflexivity.
Qed.

(** The tag 【托外流水号：粤和立【2022】施工【0017】号】. *)
Lemma nested_values_fail_the_format_check_witness :
  let segments := [ Tag (str "托外流水号") (str "粤和立【2022】施工【0017】号") ] in
  parse_auxiliary_info 10000 ascii_lower (Some (segments_text segments))
  = Some (map (fun p => make_item 10000 ascii_lower (fst p) (snd p))
              (tags_of segments))
  /\ exists errors,
      validate_auxiliary_format 10000 ascii_lower (Some (segments_text segments))
      = Some (false, errors)
      /\ In (ParseShort (length (tags_of segments))
                        (opening (segments_text segments))) errors.
Proof.
  intros segments.
  apply (nested_values_fail_the_format_check 10000 ascii_lower segments).
  - unfold segments. repeat apply Forall_cons; try apply Forall_nil.
    split; [vm_compute; intuition discriminate|].
    split; [vm_compute; reflexivity|].
    split; [vm_compute; reflexivity|].
    apply closes_all_well_nested. vm_compute. reflexivity.
  - vm_compute. reflexivity.
  - apply Exists_cons_hd. vm_compute. tauto.
Defined.

(** ** Items of given types *)

Lemma text_eqb_sym (a b : text) : Text.eqb a b = Text.eqb b a.
Proof.
  destruct (Text.eqb a b) eqn:E1, (Text.eqb b a) eqn:E2; try reflexivity.
  - apply text_eqb_eq in E1. subst.
    rewrite (proj2 (text_eqb_eq b b) eq_refl) in E2. discriminate.
  - apply text_eqb_eq in E2. subst.
    rewrite (proj2 (text_eqb_eq a a) eq_refl) in E1. discriminate.
Qed.

Lemma text_eqb_refl (a : text) : Text.eqb a a = true.
Proof. now apply text_eqb_eq. Qed.

Lemma lookup_store {V : Type} (d : list (text * V)) (k : text) (v : V) (k' : text) :
  lookup (store d k v) k' = if Text.eqb k k' then Some v else lookup d k'.
Proof.
  induction d as [|[k0 v0] d IH]; cbn [store lookup]; [reflexivity|].
  destruct (Text.eqb k0 k) eqn:E0; cbn [lookup].
  - apply text_eqb_eq in E0. subst k0.
    destruct (Text.eqb k k'); reflexivity.
  - rewrite IH. destruct (Text.eqb k0 k') eqn:E1; [|reflexivity].
    destruct (Text.eqb k k') eqn:E2; [|reflexivity].
    apply text_eqb_eq in E1. apply text_eqb_eq in E2. subst.
    rewrite text_eqb_refl in E0. discriminate.
Qed.

Lemma lookup_empty_lists (target_types : list text) :
  forall (d : list (text * list text)) ty,
    lookup (fold_left (fun d target_type => store d target_type [])
                      target_types d) ty
    = if existsb (Text.eqb ty) target_types then Some [] else lookup d ty.
Proof.
  induction target_types as [|k target_types IH]; intros d ty;
    cbn [fold_left existsb]; [reflexivity|].
  rewrite IH, lookup_store, (text_eqb_sym ty k).
  destruct (Text.eqb k ty); cbn [orb]; [|reflexivity].
  destruct (existsb _ _); reflexivity.
Qed.

Lemma lookup_collected (target_types : list text) (items : list Item) :
  forall (result : list (text * list text)) (values : text -> list text),
    (forall ty, lookup result ty
                = if existsb (Text.eqb ty) target_types
                  then Some (values ty) else None) ->
    forall ty,
      lookup (fold_left
                (fun result item =>
                   if existsb (Text.eqb (item_type item)) target_types
                   then match lookup result (item_type item) with
                        | Some values =>
                          store result (item_type item)
                                (values ++ [item_value item])
                        | None => result
                        end
                   else result)
                items result) ty
      = if existsb (Text.eqb ty) target_types
        then Some (values ty
                   ++ map item_value
                        (filter (fun tag => Text.eqb (item_type tag) ty) items))
        else None.
Proof.
  induction items as [|item items IH]; intros result values Hresult ty;
    cbn [fold_left filter].
  - cbn [map]. rewrite app_nil_r. apply Hresult.
  - rewrite (IH _ (fun ty => if Text.eqb (item_type item) ty
                             then values ty ++ [item_value item]
                             else values ty)).
    + destruct (existsb (Text.eqb ty) target_types); [|reflexivity].
      destruct (Text.eqb (item_type item) ty); [|reflexivity].
      cbn [map]. now rewrite <- app_assoc.
    + intros ty'.
      destruct (existsb (Text.eqb (item_type item)) target_types) eqn:Ein.
      * rewrite (Hresult (item_type item)), Ein, lookup_store, Hresult.
        destruct (Text.eqb (item_type item) ty') eqn:E; [|reflexivity].
        apply text_eqb_eq in E. subst ty'. now rewrite Ein.
      * rewrite Hresult.
        destruct (Text.eqb (item_type item) ty') eqn:E; [|reflexivity].
        apply text_eqb_eq in E. subst ty'. now rewrite Ein.
Qed.

Lemma parse_returns (m : Z) (lower : text -> text) (t : option text) :
  exists items, parse_auxiliary_info m lower t = Some items.
Proof.
  destruct t as [t|]; [|now exists []].
  rewrite parse_is_manual_on_stripped. unfold _parse_auxiliary_manual.
  apply run_loop_terminates. lia.
Qed.

(** [extract_specific_items] returns a dict whose keys are the target types
    and which holds under each of them the values of the parsed tags of this
    canonical type, in the order of the text; tags of other types are left
    out. *)
Theorem extracted_values_by_type
        (max_value_length : Z) (lower : text -> text)
        (t : option text) (target_types : list text) :
  exists items result,
    parse_auxiliary_info max_value_length lower t = Some items
    /\ extract_specific_items max_value_length lower t target_types = Some result
    /\ forall ty,
        lookup result ty
        = if existsb (Text.eqb ty) target_types
          then Some (map item_value
                         (filter (fun tag => Text.eqb (item_type tag) ty) items))
          else None.
Proof.
  destruct (parse_returns max_value_length lower t) as [items Hitems].
  unfold extract_specific_items. rewrite Hitems.
  eexists _, _. split; [reflexivity|]. split; [reflexivity|].
  intros ty.
  rewrite (lookup_collected target_types items _ (fun _ => [])).
  - reflexivity.
  - intros ty'. apply lookup_empty_lists.
Qed.

(** ** The item types of a column *)

Lemma text_ltb_irrefl (a : text) : text_ltb a a = false.
Proof.
  induction a as [|x a IH]; cbn [text_ltb]; [reflexivity|].
  now rewrite N.ltb_irrefl.
Qed.

Lemma text_ltb_trans (a : text) :
  forall b c, text_ltb a b = true -> text_ltb b c = true -> text_ltb a c = true.
Proof.
  induction a as [|x a IH]; intros [|y b] [|z c] Hab Hbc;
    cbn [text_ltb] in *; try discriminate; try reflexivity.
  destruct (N.ltb_spec x y) as [Hxy|Hxy].
  - destruct (N.ltb_spec y z) as [Hyz|Hyz].
    + now rewrite (proj2 (N.ltb_lt x z)) by lia.
    + destruct (N.ltb_spec z y) as [Hzy|Hzy]; [discriminate|].
      now rewrite (proj2 (N.ltb_lt x z)) by lia.
  - destruct (N.ltb_spec y x) as [Hyx|Hyx]; [discriminate|].
    assert (x = y) by lia. subst y.
    destruct (N.ltb_spec x z) as [Hxz|Hxz]; [reflexivity|].
    destruct (N.ltb_spec z x) as [Hzx|Hzx]; [discriminate|].
    now apply (IH b c).
Qed.

Lemma text_ltb_total (a : text) :
  forall b, text_ltb a b = false -> text_ltb b a = false -> a = b.
Proof.
  induction a as [|x a IH]; intros [|y b] Hab Hba;
    cbn [text_ltb] in *; try discriminate; try reflexivity.
  destruct (N.ltb_spec x y) as [Hxy|Hxy]; [discriminate|].
  destruct (N.ltb_spec y x) as [Hyx|Hyx]; [discriminate|].
  assert (x = y) by lia. subst y. f_equal. now apply IH.
Qed.

Lemma insert_sorted_in (x : text) (l : list text) (y : text) :
  In y (insert_sorted x l) <-> y = x \/ In y l.
Proof.
  induction l as [|z l IH]; cbn [insert_sorted].
  - simpl. intuition.
  - destruct (text_ltb x z); simpl in *; intuition.
Qed.

Lemma sorted_from_in (l : list text) :
  forall acc y,
    In y (fold_left (fun acc x => insert_sorted x acc) l acc) <-> In y acc \/ In y l.
Proof.
  induction l as [|x l IH]; intros acc y; cbn [fold_left].
  - simpl. intuition.
  - rewrite IH, insert_sorted_in. simpl. intuition.
Qed.

Lemma insert_sorted_increasing (x : text) (l : list text) :
  ~ In x l ->
  StronglySorted (fun a b => text_ltb a b = true) l ->
  StronglySorted (fun a b => text_ltb a b = true) (insert_sorted x l).
Proof.
  intros Hx Hs. induction Hs as [|z l Hs IH Hz]; cbn [insert_sorted].
  - constructor; constructor.
  - destruct (text_ltb x z) eqn:E.
    + constructor; [now constructor|].
      constructor; [exact E|].
      apply Forall_forall. intros y Hy.
      apply (text_ltb_trans x z y E).
      exact (proj1 (Forall_forall _ _) Hz y Hy).
    + assert (Hzx : text_ltb z x = true).
      { destruct (text_ltb z x) eqn:E'; [reflexivity|].
        exfalso. apply Hx. left. symmetry. now apply text_ltb_total. }
      constructor.
      * apply IH. intros Hin. apply Hx. now right.
      * apply Forall_forall. intros y Hy.
        apply insert_sorted_in in Hy as [->|Hy]; [exact Hzx|].
        exact (proj1 (Forall_forall _ _) Hz y Hy).
Qed.

Lemma sorted_from_increasing (l : list text) :
  forall acc,
    NoDup l -> (forall y, In y l -> ~ In y acc) ->
    StronglySorted (fun a b => text_ltb a b = true) acc ->
    StronglySorted (fun a b => text_ltb a b = true)
                   (fold_left (fun acc x => insert_sorted x acc) l acc).
Proof.
  induction l as [|x l IH]; intros acc Hnd Hdis Hs; cbn [fold_left];
    [exact Hs|].
  inversion Hnd as [|? ? Hx Hnd']; subst.
  apply IH; [exact Hnd'| |].
  - intros y Hy Hin. apply insert_sorted_in in Hin as [->|Hin].
    + contradiction.
    + apply (Hdis y); [now right | exact Hin].
  - apply insert_sorted_increasing; [|exact Hs].
    apply Hdis. now left.
Qed.

Lemma existsb_eqb_in (x : text) (s : list text) :
  existsb (Text.eqb x) s = true <-> In x s.
Proof.
  rewrite existsb_exists. split.
  - intros (y & Hy & E). apply text_eqb_eq in E. now subst.
  - intros H. exists x. split; [exact H | apply text_eqb_refl].
Qed.

Lemma set_add_in (s : list text) (x y : text) :
  In y (set_add s x) <-> In y s \/ y = x.
Proof.
  unfold set_add. destruct (existsb (Text.eqb x) s) eqn:E.
  - apply existsb_eqb_in in E. split; [tauto|]. intros [H| ->]; assumption.
  - rewrite in_app_iff. simpl. intuition.
Qed.

Lemma set_add_nodup (s : list text) (x : text) : NoDup s -> NoDup (set_add s x).
Proof.
  intros H. unfold set_add. destruct (existsb (Text.eqb x) s) eqn:E; [exact H|].
  apply NoDup_app; [exact H | repeat constructor; simpl; tauto |].
  intros y Hy [<-|[]].
  apply existsb_eqb_in in Hy. congruence.
Qed.

Lemma add_types (items : list Item) :
  forall all_types,
    NoDup all_types ->
    let types := fold_left (fun types item => set_add types (item_type item))
                           items all_types in
    NoDup types
    /\ forall ty, In ty types
                  <-> In ty all_types \/ exists tag, In tag items /\ item_type tag = ty.
Proof.
  induction items as [|item items IH]; intros all_types Hnd; cbn [fold_left].
  - split; [exact Hnd|]. intros ty. split; [tauto|].
    intros [H|(tag & [] & _)]. exact H.
  - destruct (IH (set_add all_types (item_type item))
                 (set_add_nodup _ _ Hnd)) as [Hnd' Hin].
    split; [exact Hnd'|]. intros ty. rewrite Hin, set_add_in. split.
    + intros [[H| ->]|(tag & Ht & E)].
      * now left.
      * right. exists item. split; [now left | reflexivity].
      * right. exists tag. split; [now right | exact E].
    + intros [H|(tag & [<-|Ht] & E)].
      * left. now left.
      * left. right. now symmetry.
      * right. now exists tag.
Qed.

Lemma collected_types (m : Z) (lower : text -> text) (texts : list (option text)) :
  forall all_types,
    NoDup all_types ->
    exists types,
      collect_item_types m lower texts all_types = Some types
      /\ NoDup types
      /\ forall ty,
          In ty types
          <-> In ty all_types
              \/ exists t items tag,
                  In (Some t) texts
                  /\ parse_auxiliary_info m lower (Some t) = Some items
                  /\ In tag items /\ item_type tag = ty.
Proof.
  induction texts as [|[t|] texts IH]; intros all_types Hnd;
    cbn [collect_item_types].
  - exists all_types. split; [reflexivity|]. split; [exact Hnd|].
    intros ty. split; [tauto|]. intros [H|(t & items & tag & [] & _)]. exact H.
  - destruct (parse_returns m lower (Some t)) as [items Hitems].
    rewrite Hitems.
    destruct (add_types items all_types Hnd) as [Hnd' Hin].
    destruct (IH _ Hnd') as (types & E & Hnd'' & Hin').
    exists types. split; [exact E|]. split; [exact Hnd''|].
    intros ty. rewrite Hin', Hin. split.
    + intros [[H|(tag & Ht & Ety)]|(t' & items' & tag & Hin2 & Hp & Ht & Ety)].
      * now left.
      * right. exists t, items, tag. repeat split; try assumption. now left.
      * right. exists t', items', tag. repeat split; try assumption. now right.
    + intros [H|(t' & items' & tag & [Heq|Hin2] & Hp & Ht & Ety)].
      * left. now left.
      * injection Heq as <-. rewrite Hitems in Hp. injection Hp as <-.
        left. right. now exists tag.
      * right. now exists t', items', tag.
  - destruct (IH _ Hnd) as (types & E & Hnd' & Hin).
    exists types. split; [exact E|]. split; [exact Hnd'|].
    intros ty. rewrite Hin. split.
    + intros [H|(t' & items' & tag & Hin2 & Hp & Ht & Ety)]; [now left|].
      right. exists t', items', tag. repeat split; try assumption. now right.
    + intros [H|(t' & items' & tag & [Heq|Hin2] & Hp & Ht & Ety)];
        [now left | discriminate |].
      right. now exists t', items', tag.
Qed.

(** [get_all_item_types] lists the canonical types of the tags parsed from
    the entries of the column that are not missing: each of these types once
    and no other, in strictly increasing order of the string comparison. *)
Theorem item_types_are_listed_once_in_order
        (max_value_length : Z) (lower : text -> text)
        (texts : list (option text)) :
  exists types,
    get_all_item_types max_value_length lower texts = Some types
    /\ StronglySorted (fun a b => text_ltb a b = true) types
    /\ forall ty,
        In ty types
        <-> exists t items tag,
            In (Some t) texts
            /\ parse_auxiliary_info max_value_length lower (Some t) = Some items
            /\ In tag items /\ item_type tag = ty.
Proof.
  destruct (collected_types max_value_length lower texts [] (NoDup_nil _))
    as (types & E & Hnd & Hin).
  unfold get_all_item_types. rewrite E.
  exists (sorted types). split; [reflexivity|]. split.
  - unfold sorted. apply sorted_from_increasing.
    + exact Hnd.
    + intros y _ [].
    + constructor.
  - intros ty. unfold sorted. rewrite sorted_from_in, Hin.
    simpl. tauto.
Qed.

End ParserMoreFacts.


(* ================================================================== *)
(** * More properties of the payment tracker *)
(* ================================================================== *)

Module PaymentMoreFacts.

Import Float64 PaymentTracker Notions Samples PaymentFacts.

(** ** Grouping the rows by voucher *)

Lemma key_eqb_eq (a b : text * text * text) : key_eqb a b = true <-> a = b.
Proof.
  destruct a as [[m1 d1] v1], b as [[m2 d2] v2]. unfold key_eqb.
  rewrite !andb_true_iff, !ParserFacts.text_eqb_eq. split.
  - intros [[-> ->] ->]. reflexivity.
  - intros H. injection H as -> -> ->. auto.
Qed.

Lemma key_eqb_refl (a : text * text * text) : key_eqb a a = true.
Proof. now apply key_eqb_eq. Qed.

Lemma key_eqb_neq (a b : text * text * text) : key_eqb a b = false <-> a <> b.
Proof.
  split.
  - intros E H. apply key_eqb_eq in H. congruence.
  - intros H. destruct (key_eqb a b) eqn:E; [|reflexivity].
    apply key_eqb_eq in E. contradiction.
Qed.

Lemma key_eqb_sym (a b : text * text * text) : key_eqb a b = key_eqb b a.
Proof.
  destruct (key_eqb a b) eqn:E.
  - apply key_eqb_eq in E. subst. symmetry. apply key_eqb_refl.
  - apply key_eqb_neq in E. symmetry. apply key_eqb_neq. congruence.
Qed.

Lemma existsb_key_in (key : text * text * text) (keys : list (text * text * text)) :
  existsb (key_eqb key) keys = true <-> In key keys.
Proof.
  rewrite existsb_exists. split.
  - intros (k & Hk & E). apply key_eqb_eq in E. now subst.
  - intros H. exists key. split; [exact H | apply key_eqb_refl].
Qed.

Lemma first_keys_in (raw_data : list Row) (key : text * text * text) :
  In key (first_keys raw_data)
  <-> exists record, In record raw_data /\ voucher_key record = key.
Proof.
  induction raw_data as [|a raw_data IH]; cbn [first_keys].
  - split; [intros [] | intros (r & [] & _)].
  - cbn [In]. rewrite filter_In, IH. split.
    + intros [<-|[(r & Hr & E) _]].
      * exists a. split; [now left | reflexivity].
      * exists r. split; [now right | exact E].
    + intros (r & [<-|Hr] & E).
      * now left.
      * destruct (key_eqb (voucher_key a) key) eqn:Ek.
        -- left. now apply key_eqb_eq.
        -- right. split; [now exists r | reflexivity].
Qed.

Lemma first_keys_nodup (raw_data : list Row) : NoDup (first_keys raw_data).
Proof.
  induction raw_data as [|a raw_data IH]; cbn [first_keys]; constructor.
  - rewrite filter_In. intros [_ E]. rewrite key_eqb_refl in E. discriminate.
  - now apply NoDup_filter.
Qed.

Lemma existsb_filter_other (a k : text * text * text)
      (keys : list (text * text * text)) :
  key_eqb k a = false ->
  existsb (key_eqb k) (filter (fun key => negb (key_eqb a key)) keys)
  = existsb (key_eqb k) keys.
Proof.
  intros E. induction keys as [|x keys IH]; [reflexivity|].
  cbn [filter existsb]. destruct (key_eqb a x) eqn:Eax; cbn [negb existsb].
  - apply key_eqb_eq in Eax. subst x. rewrite E. exact IH.
  - now rewrite IH.
Qed.

Lemma first_keys_snoc (raw_data : list Row) (r : Row) :
  first_keys (raw_data ++ [r])
  = if existsb (key_eqb (voucher_key r)) (first_keys raw_data)
    then first_keys raw_data
    else first_keys raw_data ++ [voucher_key r].
Proof.
  induction raw_data as [|a raw_data IH]; [reflexivity|].
  rewrite <- app_comm_cons. cbn [first_keys existsb]. rewrite IH.
  destruct (key_eqb (voucher_key r) (voucher_key a)) eqn:Era; cbn [orb].
  - apply key_eqb_eq in Era.
    destruct (existsb _ (first_keys raw_data)); [reflexivity|].
    rewrite filter_app. cbn [filter].
    rewrite Era, key_eqb_refl. cbn [negb]. now rewrite app_nil_r.
  - rewrite (existsb_filter_other _ _ _ Era).
    destruct (existsb _ (first_keys raw_data)); [reflexivity|].
    rewrite filter_app. cbn [filter].
    rewrite (key_eqb_sym (voucher_key a)), Era. reflexivity.
Qed.

Lemma group_add_rows (rows_for : text * text * text -> list Row)
      (key : text * text * text) (record : Row)
      (keys : list (text * text * text)) :
  NoDup keys ->
  group_add (map (fun k => (k, rows_for k)) keys) key record
  = map (fun k => (k, rows_for k ++ (if key_eqb k key then [record] else [])))
        keys
    ++ (if existsb (key_eqb key) keys then [] else [(key, [record])]).
Proof.
  induction keys as [|k0 keys IH]; intros Hnd; [reflexivity|].
  inversion Hnd as [|? ? Hk0 Hnd']; subst.
  cbn [map group_add existsb]. rewrite (key_eqb_sym key k0).
  destruct (key_eqb k0 key) eqn:E; cbn [orb].
  - rewrite app_nil_r. f_equal. apply map_ext_in. intros k Hk.
    assert (key_eqb k key = false) as ->.
    { apply key_eqb_neq. apply key_eqb_eq in E. subst. intros ->. contradiction. }
    now rewrite app_nil_r.
  - rewrite app_nil_r, IH by exact Hnd'. reflexivity.
Qed.

Lemma rows_of_snoc (key : text * text * text) (raw_data : list Row) (r : Row) :
  rows_of key (raw_data ++ [r])
  = rows_of key raw_data ++ (if key_eqb key (voucher_key r) then [r] else []).
Proof.
  unfold rows_of. rewrite filter_app. cbn [filter].
  destruct (key_eqb _ _); reflexivity.
Qed.

Lemma rows_of_unknown (key : text * text * text) (raw_data : list Row) :
  ~ In key (first_keys raw_data) -> rows_of key raw_data = [].
Proof.
  intros H. unfold rows_of.
  induction raw_data as [|a raw_data IH]; [reflexivity|].
  cbn [filter]. destruct (key_eqb key (voucher_key a)) eqn:E.
  - exfalso. apply H. apply first_keys_in. exists a.
    split; [now left|]. symmetry. now apply key_eqb_eq.
  - apply IH. intros Hin. apply H. apply first_keys_in.
    apply first_keys_in in Hin as (r & Hr & Er).
    exists r. split; [now right | exact Er].
Qed.

Lemma grouped_rows (raw_data : list Row) :
  group_records raw_data
  = map (fun key => (key, rows_of key raw_data)) (first_keys raw_data).
Proof.
  induction raw_data as [|r raw_data IH] using rev_ind; [reflexivity|].
  unfold group_records in *. rewrite fold_left_app. cbn [fold_left]. rewrite IH.
  rewrite group_add_rows by apply first_keys_nodup.
  rewrite first_keys_snoc.
  destruct (existsb (key_eqb (voucher_key r)) (first_keys raw_data)) eqn:E.
  - rewrite app_nil_r. apply map_ext. intros k. now rewrite rows_of_snoc.
  - rewrite map_app. cbn [map]. f_equal.
    + apply map_ext. intros k. now rewrite rows_of_snoc.
    + rewrite rows_of_snoc, key_eqb_refl, rows_of_unknown; [reflexivity|].
      intros Hin. apply existsb_key_in in Hin. congruence.
Qed.

Lemma process_groups_from (float : text -> option Float64.float) (ai_classifier : AIClassifier)
      (groups : list (text * text * text * list Row)) :
  forall all_payment_records error_count,
    fold_left (process_group float ai_classifier) groups
              (all_payment_records, error_count)
    = (all_payment_records
         ++ flat_map (fun group =>
                        produced (_process_voucher_group float ai_classifier
                                                         (snd group)))
                     groups,
       error_count
       + length (filter (fun group =>
                           failed (_process_voucher_group float ai_classifier
                                                          (snd group)))
                        groups)).
Proof.
  induction groups as [|g groups IH]; intros records errors;
    cbn [fold_left flat_map filter].
  - now rewrite app_nil_r, Nat.add_0_r.
  - unfold process_group at 2.
    destruct (_process_voucher_group float ai_classifier (snd g)) as [rs|e];
      rewrite IH; cbn [produced failed length].
    + now rewrite app_assoc.
    + f_equal. lia.
Qed.

Lemma process_groups_by_key (float : text -> option Float64.float)
      (ai_classifier : AIClassifier) (raw_data : list Row) :
  process_groups float ai_classifier raw_data
  = (flat_map (fun key =>
                 produced (_process_voucher_group float ai_classifier
                                                  (rows_of key raw_data)))
              (first_keys raw_data),
     length (filter (fun key =>
                       failed (_process_voucher_group float ai_classifier
                                                      (rows_of key raw_data)))
                    (first_keys raw_data))).
Proof.
  unfold process_groups. rewrite process_groups_from, grouped_rows.
  cbn [app Nat.add].
  generalize (first_keys raw_data) as keys.
  induction keys as [|k keys IH]; [reflexivity|].
  cbn [map flat_map filter snd]. injection IH as IH1 IH2.
  rewrite IH1.
  destruct (_process_voucher_group float ai_classifier (rows_of k raw_data));
    cbn [failed length]; now rewrite IH2.
Qed.

(** [process_data] handles the vouchers one by one, in the order of their
    first rows: each voucher is made of all the rows of the file with its
    month, day and number, in the order of the file; the payment records
    are those of the vouchers that are processed without error, a voucher
    that fails is counted and adds nothing, and the value returned tells
    whether there is any record.  Without rows nothing is changed. *)
Theorem vouchers_are_processed_one_by_one
        (float : text -> option Float64.float) (ai_classifier : AIClassifier)
        (raw_data : list Row) (bank_payments : list PaymentRecord) :
  let outcome key :=
    _process_voucher_group float ai_classifier (rows_of key raw_data) in
  let all_payment_records :=
    flat_map (fun key => produced (outcome key)) (first_keys raw_data) in
  process_groups float ai_classifier raw_data
  = (all_payment_records,
     length (filter (fun key => failed (outcome key)) (first_keys raw_data)))
  /\ process_data float ai_classifier raw_data bank_payments
     = match raw_data with
       | [] => (false, bank_payments)
       | _ :: _ => ((0 <? length all_payment_records)%nat, all_payment_records)
       end.
Proof.
  intros outcome all_payment_records.
  pose proof (process_groups_by_key float ai_classifier raw_data) as E.
  split; [exact E|].
  unfold process_data. destruct raw_data as [|r raw_data]; [reflexivity|].
  rewrite E. reflexivity.
Qed.

(** ** Extraction by pattern *)

Lemma span_value_splits (s : text) :
  forall v rest,
    span_value s = (v, rest) ->
    s = v ++ rest /\ ~ In RIGHT_BRACKET v
    /\ (rest = [] \/ exists r, rest = RIGHT_BRACKET :: r).
Proof.
  induction s as [|c s IH]; intros v rest H; cbn [span_value] in H.
  - injection H as <- <-. split; [reflexivity|]. split; [intros [] | now left].
  - destruct (c =? RIGHT_BRACKET)%N eqn:E.
    + injection H as <- <-. apply N.eqb_eq in E. subst c.
      split; [reflexivity|]. split; [intros []|]. right. now exists s.
    + destruct (span_value s) as [v' rest'] eqn:Es. injection H as <- <-.
      destruct (IH _ _ eq_refl) as (E1 & E2 & E3). apply N.eqb_neq in E.
      split; [cbn [app]; f_equal; exact E1|].
      split; [|exact E3].
      intros [H|H]; [congruence | contradiction].
Qed.

Lemma span_value_of (v post : text) :
  ~ In RIGHT_BRACKET v ->
  span_value (v ++ RIGHT_BRACKET :: post) = (v, RIGHT_BRACKET :: post).
Proof.
  induction v as [|c v IH]; intros H; cbn [app span_value].
  - now rewrite N.eqb_refl.
  - assert ((c =? RIGHT_BRACKET)%N = false) as ->.
    { apply N.eqb_neq. intros ->. apply H. now left. }
    rewrite IH; [reflexivity|]. intros Hin. apply H. now right.
Qed.

Lemma tag_text_split (label v after : text) :
  segment_text (Tag label v) ++ after
  = (LEFT_BRACKET :: label ++ [WIDE_COLON]) ++ v ++ RIGHT_BRACKET :: after.
Proof.
  cbn [segment_text app]. f_equal.
  rewrite <- !app_assoc. cbn [app]. rewrite <- !app_assoc. reflexivity.
Qed.

Lemma match_tag_here_iff (label s v : text) :
  match_tag_here label s = Some v <-> tag_at label v [] s.
Proof.
  unfold match_tag_here, tag_at. cbv zeta. split.
  - destruct (starts_with _ s) eqn:Es; [|discriminate].
    apply ParserFacts.starts_with_prefix in Es as [r ->].
    rewrite skipn_app, skipn_all, Nat.sub_diag. cbn [skipn app].
    destruct (span_value r) as [[|c v'] [|c' rest]] eqn:Ev; try discriminate.
    intros H. injection H as <-.
    apply span_value_splits in Ev as (E1 & E2 & [E3|[r' E3]]); [discriminate|].
    injection E3 as -> ->.
    split; [discriminate|]. split; [exact E2|].
    exists r'. cbn [app]. rewrite tag_text_split, E1. reflexivity.
  - intros (Hv & Hn & after & ->). cbn [app]. rewrite tag_text_split.
    rewrite (proj2 (ParserFacts.starts_with_prefix _ _))
      by (eexists; reflexivity).
    rewrite skipn_app, skipn_all, Nat.sub_diag. cbn [skipn app].
    rewrite span_value_of by exact Hn.
    destruct v; [contradiction | reflexivity].
Qed.

Lemma tag_at_tail (label v before s : text) (c c' : codepoint) :
  tag_at label v (c' :: before) (c :: s) -> tag_at label v before s.
Proof.
  intros (Hv & Hn & after & Hs). cbn [app] in Hs. injection Hs as _ Hs.
  split; [exact Hv|]. split; [exact Hn|]. now exists after.
Qed.

Lemma search_tag_finds (label s : text) :
  match search_tag label s with
  | Some v => first_tag label s v
  | None => no_tag label s
  end.
Proof.
  induction s as [|c s IH]; cbn [search_tag].
  - destruct (match_tag_here label []) as [v|] eqn:E.
    + apply match_tag_here_iff in E. exists []. split; [exact E|].
      intros. cbn [length]. lia.
    + intros before v Ht. destruct before as [|c' before].
      * apply match_tag_here_iff in Ht. congruence.
      * destruct Ht as (_ & _ & after & Hs). discriminate Hs.
  - destruct (match_tag_here label (c :: s)) as [v|] eqn:E.
    + apply match_tag_here_iff in E. exists []. split; [exact E|].
      intros. cbn [length]. lia.
    + destruct (search_tag label s) as [v|].
      * destruct IH as (before & (Hv & Hn & after & Hs) & Hmin).
        exists (c :: before). split.
        { split; [exact Hv|]. split; [exact Hn|].
          exists after. cbn [app]. f_equal. exact Hs. }
        intros before' v' Ht. destruct before' as [|c' before'].
        -- apply match_tag_here_iff in Ht. congruence.
        -- cbn [length]. apply le_n_S. apply (Hmin before' v').
           exact (tag_at_tail _ _ _ _ _ _ Ht).
      * intros before v Ht. destruct before as [|c' before].
        -- apply match_tag_here_iff in Ht. congruence.
        -- exact (IH before v (tag_at_tail _ _ _ _ _ _ Ht)).
Qed.

Lemma extracted_by_search (label s : text) :
  extracted label s match search_tag label s with
                    | Some v => v
                    | None => []
                    end.
Proof.
  pose proof (search_tag_finds label s) as H.
  destruct (search_tag label s); [now left | now right].
Qed.

(** Each extraction returns the value of the leftmost tag of its label whose
    value is not empty and runs up to the first closing bracket, and the
    empty string when the text has no such tag; the department is taken from
    a tag 部门 when there is one, wherever it stands, and from a tag 绩效部门
    otherwise. *)
Theorem extraction_returns_the_first_tag (auxiliary_item : text) :
  extracted (str "银行账户") auxiliary_item (_extract_bank_account auxiliary_item)
  /\ extracted (str "客商") auxiliary_item (_extract_customer auxiliary_item)
  /\ extracted (str "人员档案") auxiliary_item (_extract_person auxiliary_item)
  /\ (first_tag (str "部门") auxiliary_item (_extract_department auxiliary_item)
      \/ (no_tag (str "部门") auxiliary_item
          /\ extracted (str "绩效部门") auxiliary_item
                       (_extract_department auxiliary_item))).
Proof.
  split; [exact (extracted_by_search _ auxiliary_item)|].
  split; [exact (extracted_by_search _ auxiliary_item)|].
  split; [exact (extracted_by_search _ auxiliary_item)|].
  unfold _extract_department.
  pose proof (search_tag_finds (str "部门") auxiliary_item) as H.
  destruct (search_tag (str "部门") auxiliary_item); [now left|].
  right. split; [exact H|]. exact (extracted_by_search _ auxiliary_item).
Qed.

(** ** One credit, one debit *)

(** A voucher of one debit leg and one credit leg gives one record exactly
    when the classifier answers for the debit leg, and the classifier's error
    otherwise.  The record carries the identity and the amount of the credit
    leg and one fragment, made from the debit leg with its full amount, so
    that the fragments sum to the debit amount; its check compares the debit
    amount with the credit amount and is 平衡 exactly when they differ by less
    than the tolerance in the floating-point test of the code. *)
Theorem one_to_one_pays_the_full_debit
        (ai_classifier : AIClassifier) (debit_record credit_record : Leg) :
  (forall payment_records,
      process_records ai_classifier [debit_record] [credit_record]
      = Ok payment_records ->
      exists payment_record debit_entry,
        payment_records = [payment_record]
        /\ payment_id payment_record = payment_label (row credit_record)
        /\ original_voucher payment_record = voucher_label (row credit_record)
        /\ credit_side payment_record
           = credit_info credit_record (amount credit_record)
        /\ voucher_type payment_record = OneCreditOneDebit
        /\ debit_side payment_record = [debit_entry]
        /\ fragment_of debit_entry (debit_record, amount debit_record)
        /\ check_info payment_record
           = {| debit_total := amount debit_record;
                credit_total := amount credit_record;
                balanced := ltb (abs (sub (amount debit_record)
                                          (amount credit_record)))
                                tolerance |}
        /\ (positive (amount debit_record) ->
            fragment_total payment_records = amount debit_record))
  /\ (answers ai_classifier debit_record ->
      exists payment_records,
        process_records ai_classifier [debit_record] [credit_record]
        = Ok payment_records)
  /\ (~ answers ai_classifier debit_record ->
      process_records ai_classifier [debit_record] [credit_record]
      = Err ClassifierError).
Proof.
  unfold process_records.
  cbn [_determine_voucher_type length Nat.eqb Nat.ltb Nat.leb andb].
  unfold _process_one_credit_one_debit.
  destruct (_create_debit_entry ai_classifier debit_record (amount debit_record))
    as [e|x] eqn:C; cbn [bind].
  - pose proof (created_when_answered _ _ _ _ C) as Hans.
    apply created_entry in C as (Ea & En & Es).
    split; [|split; [intros _; now eexists | intros Hno; contradiction]].
    intros records H. injection H as <-.
    eexists _, e. split; [reflexivity|].
    cbn [payment_id original_voucher credit_side voucher_type debit_side
         check_info].
    rewrite Ea. unfold balance_state. repeat split; try assumption.
    intros Hpos. unfold fragment_total, entry_amounts.
    cbn [map debit_side]. rewrite Ea. unfold py_sum. cbn [fold_left].
    rewrite (add_zero_positive _ Hpos). exact (add_zero_positive _ Hpos).
  - destruct (create_raises _ _ _ _ C) as [-> Hno].
    split; [discriminate|]. split; [intros Hans; contradiction | reflexivity].
Qed.

(** ** Many credits, one debit *)

Section OneDebit.

Variable ai_classifier : AIClassifier.
Variable debit_record : Leg.
Variable total : nat.

(** Without an answer of the classifier the loop ends in its error at the
    first credit leg with a positive share. *)
Lemma allocate_one_debit_unanswered (credit_records : list Leg) :
  ~ answers ai_classifier debit_record ->
  forall i remaining_debit payment_records,
    positive_credit_shares i credit_records
      (greedy_allocation (map amount credit_records) remaining_debit) <> [] ->
    allocate_one_debit ai_classifier debit_record total credit_records i
                       remaining_debit payment_records
    = Err ClassifierError.
Proof.
  intros Hno.
  induction credit_records as [|c rest IH]; intros i rem acc Hshares.
  - now contradiction Hshares.
  - cbn [allocate_one_debit]. revert Hshares.
    unfold positive_credit_shares.
    cbn [map greedy_allocation length seq combine filter snd].
    replace (match map amount rest with
             | [] => rem
             | _ :: _ => py_min (amount c) rem
             end)
      with (match rest with
            | [] => rem
            | _ :: _ => py_min (amount c) rem
            end) by (destruct rest; reflexivity).
    destruct (ltb zero _) eqn:T.
    + intros _.
      destruct (_create_debit_entry ai_classifier debit_record _)
        as [e|x] eqn:C; cbn [bind].
      * contradiction Hno. exact (created_when_answered _ _ _ _ C).
      * now destruct (create_raises _ _ _ _ C) as [-> _].
    + intros Hshares. now apply IH.
Qed.

(** Where no credit leg has a positive share nothing is added. *)
Lemma allocate_one_debit_nothing (credit_records : list Leg) :
  forall i remaining_debit payment_records,
    positive_credit_shares i credit_records
      (greedy_allocation (map amount credit_records) remaining_debit) = [] ->
    allocate_one_debit ai_classifier debit_record total credit_records i
                       remaining_debit payment_records
    = Ok payment_records.
Proof.
  induction credit_records as [|c rest IH]; intros i rem acc Hshares;
    [reflexivity|].
  cbn [allocate_one_debit]. revert Hshares.
  unfold positive_credit_shares.
  cbn [map greedy_allocation length seq combine filter snd].
  replace (match map amount rest with
           | [] => rem
           | _ :: _ => py_min (amount c) rem
           end)
    with (match rest with
          | [] => rem
          | _ :: _ => py_min (amount c) rem
          end) by (destruct rest; reflexivity).
  destruct (ltb zero _) eqn:T; [discriminate|].
  intros Hshares. now apply IH.
Qed.

End OneDebit.

(** A voucher of one debit leg and two or more credit legs.  The debit
    amount is shared among the credit legs in their order: every credit leg
    but the last is given the smaller of its own amount and what remains of
    the debit, the last one what remains, in the floating-point arithmetic of
    the code.  The records returned are exactly those of the credit legs with
    a positive share, in order: each carries the identity of its credit leg,
    its position among all credit legs counted from one, the share as the
    amount of the credit and one fragment of the debit leg with the same
    amount.  They are returned when the classifier answers for the debit leg;
    when it does not, the voucher fails with the classifier's error unless no
    credit leg has a positive share, in which case there is no record. *)
Theorem one_debit_is_shared_among_credits
        (ai_classifier : AIClassifier) (debit_record : Leg)
        (credit_records : list Leg) :
  2 <= length credit_records ->
  let shares :=
    positive_credit_shares 0 credit_records
      (greedy_allocation (map amount credit_records) (amount debit_record)) in
  (forall payment_records,
      process_records ai_classifier [debit_record] credit_records
      = Ok payment_records ->
      Forall2 (one_debit_record debit_record (length credit_records))
              shares payment_records)
  /\ (answers ai_classifier debit_record ->
      exists payment_records,
        process_records ai_classifier [debit_record] credit_records
        = Ok payment_records)
  /\ (~ answers ai_classifier debit_record -> shares <> [] ->
      process_records ai_classifier [debit_record] credit_records
      = Err ClassifierError)
  /\ (shares = [] ->
      process_records ai_classifier [debit_record] credit_records = Ok []).
Proof.
  intros Hlen shares. unfold process_records.
  rewrite (proj2 (proj1 (proj2 (proj2 (proj2
             (leg_counts_of_type [debit_record] credit_records))))))
    by (simpl; lia).
  unfold _process_multi_credit_one_debit. repeat split.
  - intros records H.
    apply allocate_one_debit_greedy in H as (new & -> & Hnew). exact Hnew.
  - intros Hans. now apply allocate_one_debit_returns.
  - intros Hno Hshares. now apply allocate_one_debit_unanswered.
  - intros Hshares. now apply allocate_one_debit_nothing.
Qed.

(** A debit of 350 against credits of 100, 300 and 50: the first credit leg
    is given 100, the second the remaining 250, and the third nothing, so
    that it has no record. *)
Lemma one_debit_is_shared_among_credits_witness :
  let debit_record := debit_leg (voucher_row "1" "管理费用" "350" "") in
  let first := voucher_row "2" "银行存款" "" "100" in
  let second := voucher_row "3" "银行存款" "" "300" in
  let third := voucher_row "4" "银行存款" "" "50" in
  let credit_records := map credit_leg [first; second; third] in
  exists payment_records,
    process_records answering_classifier [debit_record] credit_records
    = Ok payment_records
    /\ Forall2 (one_debit_record debit_record 3)
               [ (0, credit_leg first, fl "100");
                 (1, credit_leg second, fl "250") ]
               payment_records.
Proof.
  intros debit_record first second third credit_records.
  destruct (one_debit_is_shared_among_credits answering_classifier
              debit_record credit_records ltac:(simpl; lia))
    as (Hrecords & Hreturns & _).
  destruct Hreturns as [payment_records Hok].
  - split; discriminate.
  - exists payment_records. split; [exact Hok|].
    exact (Hrecords payment_records Hok).
Defined.

(** ** Many credits, many debits *)

Section ManyToMany.

Variable ai_classifier : AIClassifier.





End ManyToMany.



(** ** How a voucher fails *)





(** Credits of 923.63 and 326.50 against debits of 630.75 and 619.37: the
    totals are the floats 1250.13 and 1250.12, whose difference
    0.010000000000218279 is above the float [0.01], and the voucher is
    refused. *)
Example a_cent_apart_can_be_unbalanced :
  _process_voucher_group decimal_float answering_classifier
    [ voucher_row "1" "管理费用" "630.75" "";
      voucher_row "2" "销售费用" "619.37" "";
      voucher_row "3" "银行存款" "" "923.63";
      voucher_row "4" "银行存款" "" "326.50" ]
  = Err (Unbalanced (fl "1250.13") (fl "1250.12"))
  /\ abs (sub (fl "1250.13") (fl "1250.12")) = fl "0.010000000000218279".
Proof. split; vm_compute; reflexivity. Qed.

(** ** Without an API key *)

Section Silent.

Variable ai_classifier : AIClassifier.

Hypothesis silent :
  forall summary account_name auxiliary_item,
    classify_payment_purpose ai_classifier summary account_name auxiliary_item
    = None.

Lemma silent_create (debit_record : Leg) (a : Float64.float) :
  _create_debit_entry ai_classifier debit_record a = Err ClassifierError.
Proof. unfold _create_debit_entry. now rewrite silent. Qed.

Lemma silent_process_records (debit_records credit_records : list Leg) :
  Forall (fun d => positive (amount d)) debit_records ->
  Forall (fun c => positive (amount c)) credit_records ->
  exists e, process_records ai_classifier debit_records credit_records = Err e.
Proof.
  intros Hd Hc. unfold process_records.
  destruct debit_records as [|d [|d2 ds]]; destruct credit_records as [|c [|c2 cs]];
    cbn [_determine_voucher_type length Nat.eqb Nat.ltb Nat.leb andb];
    try (now eexists).
  - unfold _process_one_credit_one_debit. rewrite silent_create. now eexists.
  - inversion Hd as [|? ? Hd0 _]; inversion Hc as [|? ? Hc0 _]; subst.
    unfold _process_multi_credit_one_debit. cbn [allocate_one_debit].
    pose proof (py_min_positive _ _ Hc0 Hd0) as Hp. unfold positive in Hp.
    rewrite Hp, silent_create. now eexists.
  - inversion Hd as [|? ? Hd0 _]; inversion Hc as [|? ? Hc0 _]; subst.
    unfold _process_one_credit_multi_debit. cbn [allocate_one_credit].
    pose proof (py_min_positive _ _ Hd0 Hc0) as Hp. unfold positive in Hp.
    rewrite Hp, silent_create. now eexists.
  - inversion Hd as [|? ? Hd0 _]; inversion Hc as [|? ? Hc0 _]; subst.
    unfold _process_multi_credit_multi_debit.
    destruct (ltb tolerance _); [now eexists|].
    cbn [allocate_credits consume_debits].
    rewrite (positive_not_below _ Hc0).
    pose proof (py_min_positive _ _ Hd0 Hc0) as Hp. unfold positive in Hp.
    rewrite Hp, silent_create. now eexists.
Qed.

Lemma silent_voucher (float : text -> option Float64.float)
      (voucher_records : list Row) :
  exists e, _process_voucher_group float ai_classifier voucher_records = Err e.
Proof.
  unfold _process_voucher_group.
  destruct (separate_records_positive float voucher_records) as [Hd Hc].
  destruct (separate_records float voucher_records) as [ds cs].
  now apply silent_process_records.
Qed.

Lemma silent_process_groups (float : text -> option Float64.float)
      (raw_data : list Row) :
  process_groups float ai_classifier raw_data
  = ([], length (first_keys raw_data)).
Proof.
  rewrite process_groups_by_key.
  generalize (first_keys raw_data) as keys.
  induction keys as [|k keys IH]; [reflexivity|].
  cbn [flat_map filter].
  destruct (silent_voucher float (rows_of k raw_data)) as [e ->].
  cbn [produced failed app length]. injection IH as -> ->. reflexivity.
Qed.

End Silent.

(** Without an API key, [None] or the empty string, nothing is produced:
    every classification raises, so every voucher fails, whatever its rows
    and whatever the service would answer; [process_data] counts one error
    for each voucher, stores no payment record and returns False. *)
Theorem no_api_key_no_records
        (float : text -> option Float64.float) (post : text -> option text)
        (purpose_prompt cash_flow_prompt : text -> text -> text -> text)
        (raw_data : list Row) (bank_payments : list PaymentRecord) :
  let without_key :=
    Classifier.ai_classifier None post purpose_prompt cash_flow_prompt in
  let with_empty_key :=
    Classifier.ai_classifier (Some []) post purpose_prompt cash_flow_prompt in
  (forall voucher_records,
      exists e, _process_voucher_group float without_key voucher_records = Err e)
  /\ process_groups float without_key raw_data
     = ([], length (first_keys raw_data))
  /\ process_data float without_key raw_data bank_payments
     = (false, match raw_data with [] => bank_payments | _ :: _ => [] end)
  /\ process_data float with_empty_key raw_data bank_payments
     = (false, match raw_data with [] => bank_payments | _ :: _ => [] end).
Proof.
  intros without_key with_empty_key.
  assert (H1 : forall s a x, classify_payment_purpose without_key s a x = None)
    by reflexivity.
  assert (H2 : forall s a x, classify_payment_purpose with_empty_key s a x = None)
    by reflexivity.
  split; [intros rows; exact (silent_voucher without_key H1 float rows)|].
  split; [exact (silent_process_groups without_key H1 float raw_data)|].
  unfold process_data.
  rewrite (silent_process_groups without_key H1 float raw_data).
  rewrite (silent_process_groups with_empty_key H2 float raw_data).
  destruct raw_data; split; reflexivity.
Qed.

End PaymentMoreFacts.


(* ================================================================== *)
(** * Properties of the statistics *)
(* ================================================================== *)

Module StatisticsFacts.

Import AuxiliaryParser Float64 PaymentTracker Statistics Notions Samples
       PaymentFacts.

Lemma month_sign_is_the_literal : str "月" = [MONTH_SIGN].
Proof. reflexivity. Qed.













(** The amounts are floating-point sums: with records of 1247.62, 2853.33
    and 683.8 paid from the accounts A, B and A, the dict by account holds
    1247.62 + 683.8 = 1931.4199999999998 under A. *)
Example amounts_by_key_are_float_sums :
  let record (account amount : string) :=
    {| payment_id := str "1月1日-银付-0001-分录2";
       original_voucher := str "1月1日-银付-0001";
       credit_side := {| credit_account_name := str account;
                         credit_amount := fl amount;
                         credit_summary := str "付款";
                         credit_bank_account := [] |};
       debit_side := [];
       voucher_type := OneCreditOneDebit;
       entry_index := None;
       entry_count := None;
       check_info := {| debit_total := fl amount;
                        credit_total := fl amount;
                        balanced := true |} |} in
  let payment_data :=
    [ record "A"%string "1247.62"%string;
      record "B"%string "2853.33"%string;
      record "A"%string "683.8"%string ] in
  exists stats,
    generate_basic_statistics (Some payment_data) = Some stats
    /\ by_account stats
       = [ (str "A", (2, fl "1931.4199999999998"));
           (str "B", (1, fl "2853.33")) ]
    /\ total_amount stats = fl "4784.75".
Proof.
  cbv zeta. eexists. split; [reflexivity|].
  split; vm_compute; reflexivity.
Qed.

End StatisticsFacts.
